(** * Lifecycle options of the mirror command: logging hooks and
      signal-driven cancellation ([pkg/services/options.go]).

    The file embeds the two halves of [options.go]:

    - [Logging]: [RootOptions.LogfilePreRun], [RootOptions.LogfilePostRun]
      and [checkErr], as state passing over the process-wide logger
      configuration, with fatal exits as an outcome of their own;
    - [Cancel]: [MirrorOptions.CancelContext], [MirrorOptions.init] and
      [makeCancelCh], as an interleaving machine over the goroutines they
      start. *)

From stdpp Require Import base numbers list strings pretty.
From Stdlib Require Import ZArith Lia.

Local Open Scope string_scope.
Local Open Scope list_scope.
Local Open Scope Z_scope.

Module Logging.

(** ** Data *)

(** [io.Writer] values the hooks build and pass around.  [Stream] is an
    opaque endpoint handed in by the command-line layer, [FileWriter] an
    [os.File] identified by its slot in the process file table. *)
#[warnings="-register-all"]
Inductive Writer : Type :=
| Stream (name : string)
| FileWriter (fd : nat)
| MultiWriter (ws : list Writer)
| Discard.

(** [io.MultiWriter]: a writer that is itself a multi-writer is spliced
    into the new one. *)
Definition spliceWriter (w : Writer) : list Writer :=
  match w with
  | MultiWriter ws => ws
  | _ => [w]
  end.

Definition io_MultiWriter (ws : list Writer) : Writer :=
  MultiWriter (flat_map spliceWriter ws).

(** The endpoints a write to [w] reaches, in order. *)
Fixpoint targets (w : Writer) : list Writer :=
  match w with
  | MultiWriter ws => flat_map targets ws
  | Discard => []
  | _ => [w]
  end.

(** [genericclioptions.IOStreams]; the reader is opaque. *)
Record IOStreams : Type := mkIOStreams {
  In : string;
  Out : Writer;
  ErrOut : Writer
}.

(** [logrus.Level], most severe first. *)
Inductive Level : Type :=
| PanicLevel | FatalLevel | ErrorLevel | WarnLevel
| InfoLevel | DebugLevel | TraceLevel.

(** The fields of [logrus.TextFormatter] that [LogfilePreRun] sets. *)
Record TextFormatter : Type := mkTextFormatter {
  DisableTimestamp : bool;
  DisableLevelTruncation : bool;
  DisableQuote : bool
}.

(** Modelled from the spec: [newFileHookWithNewlineTruncate] is defined
    outside [options.go]; the hook it returns formats records with the
    given formatter and writes them, at the given severity, to the given
    writer, so a hook is kept as the three arguments it is built from. *)
Record Hook : Type := newFileHookWithNewlineTruncate {
  hook_writer : Writer;
  hook_level : Level;
  hook_formatter : TextFormatter
}.

(** An entry of the process file table. *)
Record File : Type := mkFile {
  f_name : string;
  f_flag : Z;
  f_perm : Z;
  f_closed : bool
}.

(** Effects in program order. *)
Inductive Event : Type :=
| EvFlagSet (name value : string)
| EvOpenFile (name : string) (flag perm : Z)
| EvKlogSetOutput (w : Writer)
| EvLogrusSetOutput (w : Writer)
| EvLogrusSetLevel (l : Level)
| EvLogrusAddHook (h : Hook)
| EvSetupFileHook (fd : nat)
| EvKlogFlush
| EvLogrusCleanup (fd : nat)
| EvClose (fd : nat).

(** Process-wide state the hooks act on: the two loggers' settings, the
    file table and the trace of effects. *)
Record World : Type := mkWorld {
  klog_flags : list (string * string);
  klog_out : option Writer;
  logrus_out : option Writer;
  logrus_level : Level;
  logrus_hooks : list Hook;
  files : list File;
  trace : list Event
}.

(** What the operating system and the flag parser answer: the error, if
    any, of [fsv2.Set name value], of [os.OpenFile] and of closing an open
    file. *)
Record Env : Type := mkEnv {
  flag_set_err : string -> string -> option string;
  open_err : option string;
  close_err : option string
}.

(** A step either returns or ends the process through [klog.Fatal]. *)
Inductive Outcome (A : Type) : Type :=
| Ok (a : A) (w : World)
| Fatal (msg : string) (w : World).
Arguments Ok {A} a w.
Arguments Fatal {A} msg w.

Definition world_of {A} (r : Outcome A) : World :=
  match r with Ok _ w => w | Fatal _ w => w end.

Definition M (A : Type) : Type := World -> Outcome A.

Definition ret {A} (a : A) : M A := fun w => Ok a w.

Definition bind {A B} (m : M A) (k : A -> M B) : M B :=
  fun w => match m w with
           | Ok a w' => k a w'
           | Fatal msg w' => Fatal msg w'
           end.

Notation "x <- m ;; k" := (bind m (fun x => k))
  (at level 100, m at next level, right associativity).
Notation "m ;;; k" := (bind m (fun _ => k))
  (at level 100, right associativity).

Definition emit (e : Event) (w : World) : World :=
  mkWorld (klog_flags w) (klog_out w) (logrus_out w) (logrus_level w)
          (logrus_hooks w) (files w) (trace w ++ [e]).

(** [klog.Fatal]. *)
Definition klog_Fatal {A} (msg : string) : M A := fun w => Fatal msg w.

(** [checkErr]. *)
Definition checkErr (err : option string) : M unit :=
  match err with
  | Some e => klog_Fatal e
  | None => ret tt
  end.

(** [os.O_RDWR], [os.O_CREATE], [os.O_APPEND] (the values of package
    [syscall] on linux) and the permission argument [0600]. *)
Definition O_RDWR : Z := 0x2.
Definition O_CREATE : Z := 0x40.
Definition O_APPEND : Z := 0x400.
Definition perm0600 : Z := 384.

(** [RootOptions]. *)
Record RootOptions : Type := mkRootOptions {
  streams : IOStreams;
  Dir : string;
  LogLevel : Z;
  logfileCleanup : option (M unit)
}.

(** The severity chosen by the [switch o.LogLevel]. *)
Definition logrusLevelOf (v : Z) : Level :=
  if v =? 0 then InfoLevel
  else if v =? 1 then DebugLevel
  else if v =? 2 then DebugLevel
  else TraceLevel.

Section Hooks.

Variable env : Env.

(** [fsv2.Set name value]: the assignment is recorded when it succeeds. *)
Definition flag_Set (name value : string) : M (option string) := fun w =>
  match flag_set_err env name value with
  | Some e => Ok (Some e) (emit (EvFlagSet name value) w)
  | None =>
      Ok None
         (emit (EvFlagSet name value)
            (mkWorld ((name, value) :: klog_flags w) (klog_out w)
                     (logrus_out w) (logrus_level w) (logrus_hooks w)
                     (files w) (trace w)))
  end.

(** [os.OpenFile]: the new file takes the next slot of the table. *)
Definition os_OpenFile (name : string) (flag perm : Z)
  : M (nat + string) := fun w =>
  let w1 := emit (EvOpenFile name flag perm) w in
  match open_err env with
  | Some e => Ok (inr e) w1
  | None =>
      Ok (inl (length (files w)))
         (mkWorld (klog_flags w1) (klog_out w1) (logrus_out w1)
                  (logrus_level w1) (logrus_hooks w1)
                  (files w ++ [mkFile name flag perm false]) (trace w1))
  end.

(** [File.Close] of package [os]: closing a file that is already closed is an
    error. *)
Definition file_Close (fd : nat) : M (option string) := fun w =>
  let w1 := emit (EvClose fd) w in
  match files w !! fd with
  | Some f =>
      if f_closed f then
        Ok (Some ("close " +:+ f_name f +:+ ": file already closed")) w1
      else
        Ok (close_err env)
           (mkWorld (klog_flags w1) (klog_out w1) (logrus_out w1)
                    (logrus_level w1) (logrus_hooks w1)
                    (<[fd := mkFile (f_name f) (f_flag f) (f_perm f) true]>
                       (files w))
                    (trace w1))
  | None => Ok (Some "invalid argument") w1
  end.

Definition klog_SetOutput (out : Writer) : M unit := fun w =>
  Ok tt (emit (EvKlogSetOutput out)
           (mkWorld (klog_flags w) (Some out) (logrus_out w) (logrus_level w)
                    (logrus_hooks w) (files w) (trace w))).

Definition logrus_SetOutput (out : Writer) : M unit := fun w =>
  Ok tt (emit (EvLogrusSetOutput out)
           (mkWorld (klog_flags w) (klog_out w) (Some out) (logrus_level w)
                    (logrus_hooks w) (files w) (trace w))).

Definition logrus_SetLevel (l : Level) : M unit := fun w =>
  Ok tt (emit (EvLogrusSetLevel l)
           (mkWorld (klog_flags w) (klog_out w) (logrus_out w) l
                    (logrus_hooks w) (files w) (trace w))).

Definition logrus_AddHook (h : Hook) : M unit := fun w =>
  Ok tt (emit (EvLogrusAddHook h)
           (mkWorld (klog_flags w) (klog_out w) (logrus_out w)
                    (logrus_level w) (logrus_hooks w ++ [h]) (files w)
                    (trace w))).

Definition klog_Flush : M unit := fun w => Ok tt (emit EvKlogFlush w).

(** Modelled from the spec: [setupFileHook] is defined outside
    [options.go]; it adds a file-backed hook and returns the procedure
    that disposes of the hook's own resources.  Both are kept as the
    effect of calling them. *)
Definition setupFileHook (fd : nat) : M (M unit) := fun w =>
  Ok (fun w' => Ok tt (emit (EvLogrusCleanup fd) w'))
     (emit (EvSetupFileHook fd) w).

(** [RootOptions.LogfilePreRun]. *)
Definition LogfilePreRun (o : RootOptions) : M RootOptions :=
  e1 <- flag_Set "stderrthreshold" "4" ;; checkErr e1 ;;;
  e2 <- flag_Set "skip_headers" "true" ;; checkErr e2 ;;;
  e3 <- flag_Set "logtostderr" "false" ;; checkErr e3 ;;;
  e4 <- flag_Set "alsologtostderr" "false" ;; checkErr e4 ;;;
  e5 <- flag_Set "v" (pretty (LogLevel o)) ;; checkErr e5 ;;;
  r <- os_OpenFile ".oc-mirror.log"
         (Z.lor (Z.lor O_CREATE O_APPEND) O_RDWR) perm0600 ;;
  match r with
  | inr err => klog_Fatal err
  | inl logFile =>
      klog_SetOutput
        (io_MultiWriter [Out (streams o); FileWriter logFile]) ;;;
      logrus_SetOutput Discard ;;;
      let logrusLevel := logrusLevelOf (LogLevel o) in
      logrus_SetLevel logrusLevel ;;;
      logrus_AddHook
        (newFileHookWithNewlineTruncate (ErrOut (streams o)) logrusLevel
           {| DisableTimestamp := false;
              DisableLevelTruncation := true;
              DisableQuote := true |}) ;;;
      logrusCleanup <- setupFileHook logFile ;;
      ret {| streams :=
               {| In := In (streams o);
                  Out := io_MultiWriter
                           [Out (streams o); FileWriter logFile];
                  ErrOut := io_MultiWriter
                              [ErrOut (streams o); FileWriter logFile] |};
             Dir := Dir o;
             LogLevel := LogLevel o;
             logfileCleanup :=
               Some (klog_Flush ;;;
                     logrusCleanup ;;;
                     e <- file_Close logFile ;; checkErr e) |}
  end.

(** [RootOptions.LogfilePostRun]. *)
Definition LogfilePostRun (o : RootOptions) : M unit :=
  match logfileCleanup o with
  | Some cleanup => cleanup
  | None => ret tt
  end.

(** The hooks as the command-line layer invokes them; the options value
    is shared, so what setup stores is what teardown sees. *)
Inductive HookCall : Type := PreRun | PostRun.

Definition call (h : HookCall) (o : RootOptions) : M RootOptions :=
  match h with
  | PreRun => LogfilePreRun o
  | PostRun => LogfilePostRun o ;;; ret o
  end.

Fixpoint calls (hs : list HookCall) (o : RootOptions) : M RootOptions :=
  match hs with
  | [] => ret o
  | h :: hs' => o' <- call h o ;; calls hs' o'
  end.

End Hooks.

(** A process that has not touched its loggers yet (logrus starts at
    [InfoLevel]) and options as the command-line layer builds them. *)
Definition world0 : World :=
  mkWorld [] None None InfoLevel [] [] [].

Definition options0 (v : Z) : RootOptions :=
  {| streams := {| In := "stdin"; Out := Stream "stdout";
                   ErrOut := Stream "stderr" |};
     Dir := "oc-mirror-workspace";
     LogLevel := v;
     logfileCleanup := None |}.

(** An environment in which nothing fails. *)
Definition env_ok : Env := mkEnv (fun _ _ => None) None None.

(** ** Vocabulary of the statements *)

(** [os.O_TRUNC], [os.O_EXCL] and the mask of the access mode (package
    [syscall] on linux): what the open call does not ask for. *)
Definition O_TRUNC : Z := 0x200.
Definition O_EXCL : Z := 0x80.
Definition O_ACCMODE : Z := 0x3.


(** The five assignments [LogfilePreRun] makes through [fsv2.Set], in
    order. *)
Definition flag_settings (o : RootOptions) : list (string * string) :=
  [("stderrthreshold", "4"); ("skip_headers", "true");
   ("logtostderr", "false"); ("alsologtostderr", "false");
   ("v", pretty (LogLevel o))].

(** The errors the environment holds for the fallible steps of setup, in
    program order: the five flag assignments, then the open. *)
Definition setup_errors (env : Env) (o : RootOptions) : list string :=
  omap (fun nv => flag_set_err env nv.1 nv.2) (flag_settings o)
  ++ option_list (open_err env).

Definition the_hook (o : RootOptions) : Hook :=
  newFileHookWithNewlineTruncate (ErrOut (streams o))
    (logrusLevelOf (LogLevel o))
    {| DisableTimestamp := false;
       DisableLevelTruncation := true;
       DisableQuote := true |}.

Definition count_event (p : Event -> bool) (t : list Event) : nat :=
  length (List.filter p t).

(** The message the process ended with, if it did. *)
Definition fatal_msg {A} (r : Outcome A) : option string :=
  match r with Fatal msg _ => Some msg | Ok _ _ => None end.

Definition is_flush (e : Event) : bool :=
  match e with EvKlogFlush => true | _ => false end.

Definition is_close (e : Event) : bool :=
  match e with EvClose _ => true | _ => false end.

(** The state setup leaves from the options of a fresh command line, when
    nothing fails. *)
Definition after_setup (v : Z) : RootOptions * World :=
  match LogfilePreRun env_ok (options0 v) world0 with
  | Ok o w => (o, w)
  | Fatal _ w => (options0 v, w)
  end.

(** An environment where the open fails, and one where the verbosity flag
    is refused. *)
Definition env_no_open : Env :=
  mkEnv (fun _ _ => None)
        (Some "open .oc-mirror.log: permission denied") None.

Definition env_bad_v : Env :=
  mkEnv (fun name _ => if String.eqb name "v" then Some "bad verbosity"
                       else None)
        (Some "open .oc-mirror.log: permission denied") None.

Definition open_calls (t : list Event) : list (string * Z * Z) :=
  omap (fun e => match e with
                 | EvOpenFile name flag perm => Some (name, flag, perm)
                 | _ => None
                 end) t.

(** ** Vocabulary of the further properties *)

(** The files among the endpoints of a writer. *)
Definition file_targets (w : Writer) : list nat :=
  omap (fun t => match t with FileWriter fd => Some fd | _ => None end)
       (targets w).

(** The closure [LogfilePreRun] stores for the log file [logFile]. *)
Definition cleanup_of (env : Env) (logFile : nat) : M unit :=
  klog_Flush ;;;
  (fun w0 => Ok tt (emit (EvLogrusCleanup logFile) w0)) ;;;
  e <- file_Close env logFile ;; checkErr e.


(** An environment where closing the log file fails. *)
Definition env_bad_close : Env :=
  mkEnv (fun _ _ => None) None (Some "close .oc-mirror.log: input/output error").

End Logging.

Module Cancel.

Local Open Scope nat_scope.

(** ** Data *)

(** [os.Signal] values; [SIGHUP] stands for a signal nobody asked for. *)
Inductive Signal : Type := SIGINT | SIGTERM | SIGHUP.

Definition Signal_eqb (a b : Signal) : bool :=
  match a, b with
  | SIGINT, SIGINT | SIGTERM, SIGTERM | SIGHUP, SIGHUP => true
  | _, _ => false
  end.

(** The goroutine started by [makeCancelCh]: it is either at [<-signalCh]
    or at [resultCh <- struct{}{}]. *)
Inductive BridgePc : Type := AtRecvSignal | AtSendResult.

(** One call of [makeCancelCh]: the registration with [signal.Notify], the
    buffered [signalCh], the goroutine, and counters of what went through
    (signals notified, signals that found the buffer full, values
    received from [resultCh]). *)
Record Bridge : Type := mkBridge {
  notified : list Signal;
  signalCh : list Signal;
  bridge_pc : BridgePc;
  arrived : nat;
  dropped : nat;
  emitted : nat
}.

(** [make(chan os.Signal, 1)]. *)
Definition signalCh_cap : nat := 1.

(** [makeCancelCh]. *)
Definition makeCancelCh (signals : list Signal) : Bridge :=
  mkBridge signals [] AtRecvSignal 0 0 0.

(** Delivery of [s] to a channel registered with [signal.Notify]: the
    send does not block, a signal that finds the buffer full is lost. *)
Definition notify (s : Signal) (b : Bridge) : Bridge :=
  if existsb (Signal_eqb s) (notified b) then
    if length (signalCh b) <? signalCh_cap then
      mkBridge (notified b) (signalCh b ++ [s]) (bridge_pc b)
               (S (arrived b)) (dropped b) (emitted b)
    else
      mkBridge (notified b) (signalCh b) (bridge_pc b)
               (S (arrived b)) (S (dropped b)) (emitted b)
  else b.

(** Program points of one call of [CancelContext].  [o.once.Do(o.init)]
    is unfolded as package [sync] has it: a load of the done flag; on
    zero the mutex is taken, the flag is read again, [o.init] runs, and
    the deferred store of the flag and unlock follow. *)
Inductive CallPc : Type :=
| AtOnceDo
| AtLock
| AtRecheck
| AtInit
| AtStoreDone
| AtUnlock
| AtWithCancel
| Returned (ctx : nat).

(** The two cases of the watcher's [select]. *)
Inductive Arm : Type := ArmCancelCh | ArmDone.

(** The goroutine started by [CancelContext]: waiting in [select], about
    to call [cancel()] after a receive from [o.cancelCh], or finished. *)
Inductive WatcherPc : Type := AtSelect | AtCancel | Exited.

(** A context derived by [context.WithCancel] with its watcher; [fired]
    logs the select cases taken. *)
Record Derived : Type := mkDerived {
  ctx_done : bool;
  watcher : WatcherPc;
  fired : list Arm
}.

(** [MirrorOptions] as far as cancellation goes, with the goroutines that
    share it.  [cancelCh] is the bridge whose [resultCh] the field holds,
    [None] for the nil channel. *)
Record State : Type := mkState {
  once_done : bool;
  once_locked : bool;
  cancelCh : option nat;
  bridges : list Bridge;
  callers : list CallPc;
  derived : list Derived
}.

Definition set_callers (cs : list CallPc) (st : State) : State :=
  mkState (once_done st) (once_locked st) (cancelCh st) (bridges st) cs
          (derived st).

Definition set_derived (ds : list Derived) (st : State) : State :=
  mkState (once_done st) (once_locked st) (cancelCh st) (bridges st)
          (callers st) ds.

Definition set_bridges (bs : list Bridge) (st : State) : State :=
  mkState (once_done st) (once_locked st) (cancelCh st) bs (callers st)
          (derived st).

Definition set_locked (b : bool) (st : State) : State :=
  mkState (once_done st) b (cancelCh st) (bridges st) (callers st)
          (derived st).

Definition set_done (st : State) : State :=
  mkState true (once_locked st) (cancelCh st) (bridges st) (callers st)
          (derived st).

(** [MirrorOptions.init]: [o.cancelCh = makeCancelCh(SIGINT, SIGTERM)]. *)
Definition init (st : State) : State :=
  mkState (once_done st) (once_locked st) (Some (length (bridges st)))
          (bridges st ++ [makeCancelCh [SIGINT; SIGTERM]])
          (callers st) (derived st).

(** [context.WithCancel] and the [go func() { select ... }()]. *)
Definition withCancel (st : State) : State :=
  set_derived (derived st ++ [mkDerived false AtSelect []]) st.

(** ** Steps *)

(** The next statement of caller [i] of [CancelContext]. *)
Definition step_call (i : nat) (st : State) : option State :=
  match callers st !! i with
  | None => None
  | Some pc =>
      let goto pc' st' := Some (set_callers (<[i := pc']> (callers st)) st') in
      match pc with
      | AtOnceDo => goto (if once_done st then AtWithCancel else AtLock) st
      | AtLock =>
          if once_locked st then None else goto AtRecheck (set_locked true st)
      | AtRecheck => goto (if once_done st then AtUnlock else AtInit) st
      | AtInit => goto AtStoreDone (init st)
      | AtStoreDone => goto AtUnlock (set_done st)
      | AtUnlock => goto AtWithCancel (set_locked false st)
      | AtWithCancel =>
          goto (Returned (length (derived st))) (withCancel st)
      | Returned _ => None
      end
  end.

(** Bridge goroutine [b] at [<-signalCh]. *)
Definition step_bridge (b : nat) (st : State) : option State :=
  match bridges st !! b with
  | Some br =>
      match bridge_pc br, signalCh br with
      | AtRecvSignal, _ :: q =>
          Some (set_bridges
                  (<[b := mkBridge (notified br) q AtSendResult (arrived br)
                            (dropped br) (emitted br)]> (bridges st)) st)
      | _, _ => None
      end
  | None => None
  end.

(** Watcher [j] takes [case <-o.cancelCh]: the unbuffered [resultCh]
    hands a value over when the bridge is at its send. *)
Definition step_watcher_recv (j : nat) (st : State) : option State :=
  match derived st !! j, cancelCh st with
  | Some d, Some b =>
      match watcher d, bridges st !! b with
      | AtSelect, Some br =>
          match bridge_pc br with
          | AtSendResult =>
              Some (set_bridges
                      (<[b := mkBridge (notified br) (signalCh br)
                                AtRecvSignal (arrived br) (dropped br)
                                (S (emitted br))]> (bridges st))
                      (set_derived
                         (<[j := mkDerived (ctx_done d) AtCancel
                                   (fired d ++ [ArmCancelCh])]> (derived st))
                         st))
          | AtRecvSignal => None
          end
      | _, _ => None
      end
  | _, _ => None
  end.

(** Watcher [j] otherwise: [case <-ctx.Done()] once the context is done,
    or the [cancel()] that follows a receive from [o.cancelCh]. *)
Definition step_watcher (j : nat) (st : State) : option State :=
  match derived st !! j with
  | Some d =>
      match watcher d with
      | AtSelect =>
          if ctx_done d then
            Some (set_derived
                    (<[j := mkDerived true Exited (fired d ++ [ArmDone])]>
                       (derived st)) st)
          else None
      | AtCancel =>
          Some (set_derived
                  (<[j := mkDerived true Exited (fired d)]> (derived st)) st)
      | Exited => None
      end
  | None => None
  end.

(** Context [j] is cancelled from outside the watcher: by the caller's
    [cancel()] or through its parent. *)
Definition step_cancel (j : nat) (st : State) : option State :=
  match derived st !! j with
  | Some d =>
      Some (set_derived
              (<[j := mkDerived true (watcher d) (fired d)]> (derived st)) st)
  | None => None
  end.

Inductive Action : Type :=
| Call (i : nat)
| Deliver (s : Signal)
| BridgeRecv (b : nat)
| WatcherRecv (j : nat)
| WatcherStep (j : nat)
| CancelCtx (j : nat).

(** [None] when the action is blocked or names no goroutine. *)
Definition step (a : Action) (st : State) : option State :=
  match a with
  | Call i => step_call i st
  | Deliver s => Some (set_bridges (map (notify s) (bridges st)) st)
  | BridgeRecv b => step_bridge b st
  | WatcherRecv j => step_watcher_recv j st
  | WatcherStep j => step_watcher j st
  | CancelCtx j => step_cancel j st
  end.

(** A schedule is run action by action; a blocked action leaves the state
    as it is. *)
Definition exec (a : Action) (st : State) : State :=
  match step a st with Some st' => st' | None => st end.

Definition run (sched : list Action) (st : State) : State :=
  fold_left (fun st a => exec a st) sched st.

(** [n] goroutines about to call [CancelContext] on one fresh
    [MirrorOptions]. *)
Definition start (n : nat) : State :=
  mkState false false None [] (replicate n AtOnceDo) [].

(** Caller [i] runs [CancelContext] from entry to return on its own. *)
Definition whole_call (i : nat) : list Action := replicate 7 (Call i).

(** The calls [0 .. n-1] one after the other. *)
Definition sequential (n : nat) : list Action :=
  flat_map whole_call (seq 0 n).

(** ** Vocabulary of the statements *)

Definition count (p : CallPc -> bool) (l : list CallPc) : nat :=
  length (List.filter p l).

Definition b2n (b : bool) : nat := if b then 1 else 0.

Definition at_recheck (pc : CallPc) : bool :=
  match pc with AtRecheck => true | _ => false end.
Definition at_init (pc : CallPc) : bool :=
  match pc with AtInit => true | _ => false end.
Definition at_store (pc : CallPc) : bool :=
  match pc with AtStoreDone => true | _ => false end.
Definition at_unlock (pc : CallPc) : bool :=
  match pc with AtUnlock => true | _ => false end.

(** The caller is back from [o.once.Do]. *)
Definition past_once (pc : CallPc) : bool :=
  match pc with AtWithCancel | Returned _ => true | _ => false end.

Definition has_returned (pc : CallPc) : bool :=
  match pc with Returned _ => true | _ => false end.

(** The mutex is held by the one caller inside [doSlow]; a registration
    exists exactly when the done flag is set or a caller stands between
    [init] and the store of the flag; the flag is set before anyone is
    past the store. *)
Record OnceInv (st : State) : Prop := mkOnceInv {
  inv_mutex :
    count at_recheck (callers st) + count at_init (callers st)
    + count at_store (callers st) + count at_unlock (callers st)
    = b2n (once_locked st);
  inv_bridges :
    length (bridges st)
    = b2n (once_done st) + count at_store (callers st);
  inv_done :
    once_done st = true ->
    count at_init (callers st) + count at_store (callers st) = 0;
  inv_not_done :
    once_done st = false ->
    count at_unlock (callers st) + count past_once (callers st) = 0;
  inv_cancelCh :
    cancelCh st = if length (bridges st) =? 0 then None else Some 0
}.

(** Signals still on their way through bridge [b]: buffered in
    [signalCh], or taken out and waiting at the send on [resultCh]. *)
Definition pending (b : Bridge) : nat :=
  length (signalCh b)
  + match bridge_pc b with AtSendResult => 1 | AtRecvSignal => 0 end.

Record BridgeInv (b : Bridge) : Prop := mkBridgeInv {
  inv_notified : notified b = [SIGINT; SIGTERM];
  inv_cap : length (signalCh b) <= signalCh_cap;
  inv_flow : emitted b + pending b + dropped b = arrived b
}.

Definition BridgesInv (st : State) : Prop := Forall BridgeInv (bridges st).

(** A watcher in [select] has taken no case; one that left it has taken
    exactly one; one that finished has seen its context done. *)
Definition DerivedInv (d : Derived) : Prop :=
  match watcher d with
  | AtSelect => fired d = []
  | AtCancel => fired d = [ArmCancelCh]
  | Exited =>
      (fired d = [ArmCancelCh] \/ fired d = [ArmDone]) /\ ctx_done d = true
  end.

Definition WatchersInv (st : State) : Prop := Forall DerivedInv (derived st).

Definition returned (pc : CallPc) : Prop := has_returned pc = true.

(** Three callers whose statements are interleaved: callers 0 and 1
    race for the mutex, caller 1 wins and runs [init] while caller 0 is
    blocked at [Lock]; caller 2 arrives when the flag is set. *)
Definition racing_calls : list Action :=
  [Call 0; Call 1; Call 1; Call 0; Call 1; Call 1; Call 0; Call 1; Call 1;
   Call 0; Call 2; Call 0; Call 2; Call 0; Call 0; Call 1; Call 0].

(** After one call and one signal taken by the bridge goroutine, the
    event is pending at the send; the next signal is queued, the one
    after it is dropped. *)
Definition pending_bridge : Bridge :=
  mkBridge [SIGINT; SIGTERM] [] AtSendResult 1 0 0.

(** A state some schedule of some number of callers leads to. *)
Definition Reach (st : State) : Prop :=
  exists n sched, st = run sched (start n).

(** Actions that come from outside the goroutines: a signal, a
    cancellation by the caller or through the parent. *)
Definition is_input (a : Action) : bool :=
  match a with Deliver _ | CancelCtx _ => true | _ => false end.

(** ** Several [MirrorOptions] values in one process *)

(** [once] and [cancelCh] are fields of [MirrorOptions], so each value
    has its own, with the goroutines that share it; the registrations
    with [signal.Notify] are those of all the values. *)
Definition Process : Type := list State.

(** A goroutine of the [k]-th value takes a step; a signal, whatever
    [k], is delivered to every channel registered in the process. *)
Definition pexec (ka : nat * Action) (p : Process) : Process :=
  match ka.2 with
  | Deliver s => map (exec (Deliver s)) p
  | a => alter (exec a) ka.1 p
  end.

Definition prun (sched : list (nat * Action)) (p : Process) : Process :=
  fold_left (fun p ka => pexec ka p) sched p.

(** One fresh [MirrorOptions] value for each entry of [ns], with that
    many goroutines about to call [CancelContext] on it. *)
Definition pstart (ns : list nat) : Process := map start ns.

(** The calls of [makeCancelCh], each with its [signal.Notify]
    registration and listener goroutine, made in the process. *)
Definition registrations (p : Process) : nat :=
  sum_list_with (fun st => length (bridges st)) p.

(** One call of [CancelContext] on each of two values. *)
Definition two_options : list (nat * Action) :=
  map (pair 0) (whole_call 0) ++ map (pair 1) (whole_call 0).

(** ** Vocabulary of the further properties *)

Definition is_cancel_arm (a : Arm) : bool :=
  match a with ArmCancelCh => true | ArmDone => false end.

(** How often the watcher of [d] took the receive from [o.cancelCh]. *)
Definition arm_cancels (d : Derived) : nat :=
  length (List.filter is_cancel_arm (fired d)).

(** Over the whole state: receives taken by watchers, values handed over
    by bridges, signals notified to bridges. *)
Definition signal_cancels (st : State) : nat :=
  sum_list_with arm_cancels (derived st).

Definition events (st : State) : nat := sum_list_with emitted (bridges st).

Definition arrivals (st : State) : nat := sum_list_with arrived (bridges st).

(** The signals [init] registers. *)
Definition is_watched (s : Signal) : bool :=
  existsb (Signal_eqb s) [SIGINT; SIGTERM].

Definition is_watched_deliver (a : Action) : bool :=
  match a with Deliver s => is_watched s | _ => false end.

(** The watched signals a schedule delivers. *)
Definition watched_delivers (sched : list Action) : nat :=
  length (List.filter is_watched_deliver sched).

(** Contexts handed to callers exist, no two callers hold the same one,
    and there are as many contexts as callers that returned. *)
Record FreshCtx (st : State) : Prop := mkFreshCtx {
  ctx_exists : forall i c,
    callers st !! i = Some (Returned c) -> c < length (derived st);
  ctx_distinct : forall i i' c,
    callers st !! i = Some (Returned c) ->
    callers st !! i' = Some (Returned c) -> i = i';
  ctx_count : length (derived st) = count has_returned (callers st)
}.

(** A caller that can still take a step of its own accord: anywhere but
    returned. *)
Definition unfinished (pc : CallPc) : bool := negb (has_returned pc).

(** The statements a caller has before it, at most, until it returns. *)
Definition steps_left (pc : CallPc) : nat :=
  match pc with
  | AtOnceDo => 7
  | AtLock => 6
  | AtRecheck => 5
  | AtInit => 4
  | AtStoreDone => 3
  | AtUnlock => 2
  | AtWithCancel => 1
  | Returned _ => 0
  end.

End Cancel.


(** * Flag binding: [RootOptions.BindFlags] and [MirrorOptions.BindFlags] *)

Module Flags.

(** ** Data *)

(** The fields of [RootOptions] and of [MirrorOptions] (which embeds a
    pointer to the former) that are strings, integers and booleans.  A
    flag is bound to a field by a pointer to it, so a pointer to a string
    field is a [StringField], and so on. *)
Inductive StringField : Type :=
| FDir | FOutputDir | FConfigPath | FFrom | FToMirror | FUserNamespace
| FOCIRegistriesConfig.

Inductive IntField : Type := FLogLevel | FMaxPerRegistry.

Inductive BoolField : Type :=
| FSkipImagePin | FManifestsOnly | FDryRun | FSourceSkipTLS | FDestSkipTLS
| FSourcePlainHTTP | FDestPlainHTTP | FSkipVerification | FSkipCleanup
| FSkipMissing | FSkipMetadataCheck | FContinueOnError | FIgnoreHistory
| FUseOCIFeature | FOCIInsecureSignaturePolicy | FcontinuedOnError.

Global Instance StringField_eq_dec : EqDecision StringField.
Proof. solve_decision. Defined.
Global Instance IntField_eq_dec : EqDecision IntField.
Proof. solve_decision. Defined.
Global Instance BoolField_eq_dec : EqDecision BoolField.
Proof. solve_decision. Defined.

(** The options value the flags point into. *)
Record Options : Type := mkOptions {
  strs : StringField -> string;
  ints : IntField -> Z;
  bools : BoolField -> bool
}.

Definition set_str (p : StringField) (v : string) (o : Options) : Options :=
  mkOptions (fun q => if decide (p = q) then v else strs o q)
            (ints o) (bools o).

Definition set_int (p : IntField) (v : Z) (o : Options) : Options :=
  mkOptions (strs o) (fun q => if decide (p = q) then v else ints o q)
            (bools o).

Definition set_bool (p : BoolField) (v : bool) (o : Options) : Options :=
  mkOptions (strs o) (ints o)
            (fun q => if decide (p = q) then v else bools o q).

(** The variable behind a flag ([pflag.Value]). *)
Inductive Binding : Type :=
| BString (p : StringField)
| BInt (p : IntField)
| BBool (p : BoolField).

(** [pflag.Flag]. *)
Record Flag : Type := mkFlag {
  Name : string;
  Shorthand : string;
  Usage : string;
  Value : Binding;
  DefValue : string;
  NoOptDefVal : string;
  Hidden : bool
}.

(** [pflag.FlagSet]: its name and the flags in the order they were
    added. *)
Record FlagSet : Type := mkFlagSet {
  fs_name : string;
  formal : list Flag
}.

(** What a panic of package [pflag] or the error of [MarkHidden]
    reports. *)
Inductive Failure : Type :=
| FlagRedefined (flagset name : string)
| ShorthandTooLong (name shorthand : string)
| ShorthandRedefined (shorthand flagset used : string)
| FlagDoesNotExist (name : string).

(** Binding returns, panics, or ends the process through
    [klog.Fatal]. *)
Inductive Result (A : Type) : Type :=
| Done (a : A)
| Panic (why : Failure)
| FatalExit (why : Failure).
Arguments Done {A} a.
Arguments Panic {A} why.
Arguments FatalExit {A} why.

(** ** Package [pflag] *)

(** [FlagSet.Lookup]. *)
Definition Lookup (name : string) (fs : FlagSet) : option Flag :=
  List.find (fun f => String.eqb (Name f) name) (formal fs).

(** The flag a shorthand letter is taken by. *)
Definition shorthand_of (c : string) (fs : FlagSet) : option Flag :=
  List.find (fun f => String.eqb (Shorthand f) c) (formal fs).

(** [FlagSet.AddFlag]: a name that is defined already, a shorthand of
    more than one letter and a shorthand that is taken already make it
    panic. *)
Definition AddFlag (flag : Flag) (fs : FlagSet) : Result FlagSet :=
  match Lookup (Name flag) fs with
  | Some _ => Panic (FlagRedefined (fs_name fs) (Name flag))
  | None =>
      let fs' := mkFlagSet (fs_name fs) (formal fs ++ [flag]) in
      if String.eqb (Shorthand flag) "" then Done fs'
      else if (1 <? String.length (Shorthand flag))%nat then
        Panic (ShorthandTooLong (Name flag) (Shorthand flag))
      else
        match shorthand_of (Shorthand flag) fs with
        | Some used =>
            Panic (ShorthandRedefined (Shorthand flag) (fs_name fs)
                     (Name used))
        | None => Done fs'
        end
  end.

Definition Binder : Type := Options * FlagSet -> Result (Options * FlagSet).

Definition andThen (b : Binder) (k : Binder) : Binder := fun s =>
  match b s with
  | Done s' => k s'
  | Panic why => Panic why
  | FatalExit why => FatalExit why
  end.

Notation "b >> k" := (andThen b k) (at level 100, right associativity).

(** The receiver's fields are read when the call is made. *)
Definition reading (k : Options -> Binder) : Binder := fun s => k s.1 s.

(** [FlagSet.StringVarP], [IntVarP], [BoolVarP]: the variable is set to
    the default, then the flag is added. *)
Definition StringVarP (p : StringField) (name shorthand value usage : string)
  : Binder := fun s =>
  match AddFlag (mkFlag name shorthand usage (BString p) value "" false)
                s.2 with
  | Done fs' => Done (set_str p value s.1, fs')
  | Panic why => Panic why
  | FatalExit why => FatalExit why
  end.

Definition IntVarP (p : IntField) (name shorthand : string) (value : Z)
    (usage : string) : Binder := fun s =>
  match AddFlag (mkFlag name shorthand usage (BInt p) (pretty value) "" false)
                s.2 with
  | Done fs' => Done (set_int p value s.1, fs')
  | Panic why => Panic why
  | FatalExit why => FatalExit why
  end.

Definition BoolVarP (p : BoolField) (name shorthand : string) (value : bool)
    (usage : string) : Binder := fun s =>
  match AddFlag (mkFlag name shorthand usage (BBool p)
                   (if value then "true" else "false") "true" false)
                s.2 with
  | Done fs' => Done (set_bool p value s.1, fs')
  | Panic why => Panic why
  | FatalExit why => FatalExit why
  end.

Definition StringVar p name value usage := StringVarP p name "" value usage.
Definition IntVar p name value usage := IntVarP p name "" value usage.
Definition BoolVar p name value usage := BoolVarP p name "" value usage.

Definition hide (f : Flag) : Flag :=
  mkFlag (Name f) (Shorthand f) (Usage f) (Value f) (DefValue f)
         (NoOptDefVal f) true.

(** [FlagSet.MarkHidden]. *)
Definition MarkHidden (name : string) (fs : FlagSet)
  : FlagSet * option Failure :=
  match Lookup name fs with
  | None => (fs, Some (FlagDoesNotExist name))
  | Some _ =>
      (mkFlagSet (fs_name fs)
         (map (fun f => if String.eqb (Name f) name then hide f else f)
              (formal fs)),
       None)
  end.

(** ** The two [BindFlags] *)

(** [RootOptions.BindFlags]. *)
Definition RootOptions_BindFlags : Binder :=
  StringVarP FDir "dir" "d" "oc-mirror-workspace" "Assets directory" >>
  reading (fun o =>
    IntVarP FLogLevel "verbose" "v" (ints o FLogLevel)
      "Number for the log level verbosity (valid 1-9, default is 0)") >>
  fun s =>
    match MarkHidden "dir" s.2 with
    | (_, Some err) => FatalExit err
    | (fs', None) => Done (s.1, fs')
    end.

(** [MirrorOptions.BindFlags]. *)
Definition MirrorOptions_BindFlags : Binder :=
  reading (fun o => StringVarP FConfigPath "config" "c" (strs o FConfigPath)
    "Path to imageset configuration file") >>
  reading (fun o => BoolVar FSkipImagePin "skip-image-pin"
    (bools o FSkipImagePin)
    "Do not replace image tags with digest pins in operator catalogs") >>
  reading (fun o => StringVar FFrom "from" (strs o FFrom)
    "Path to an input file (e.g. archived imageset)") >>
  reading (fun o => BoolVar FManifestsOnly "manifests-only"
    (bools o FManifestsOnly) "Generate manifests and do not mirror") >>
  reading (fun o => BoolVar FDryRun "dry-run" (bools o FDryRun)
    "Print actions without mirroring images") >>
  reading (fun o => BoolVar FSourceSkipTLS "source-skip-tls"
    (bools o FSourceSkipTLS) "Disable TLS validation for source registry") >>
  reading (fun o => BoolVar FDestSkipTLS "dest-skip-tls"
    (bools o FDestSkipTLS)
    "Disable TLS validation for destination registry") >>
  reading (fun o => BoolVar FSourcePlainHTTP "source-use-http"
    (bools o FSourcePlainHTTP) "Use plain HTTP for source registry") >>
  reading (fun o => BoolVar FDestPlainHTTP "dest-use-http"
    (bools o FDestPlainHTTP) "Use plain HTTP for destination registry") >>
  reading (fun o => BoolVar FSkipVerification "skip-verification"
    (bools o FSkipVerification)
    ("Skip verifying the integrity of the retrieved content." +:+
     "This is not recommended, but may be necessary when importing images from older image registries." +:+
     "Only bypass verification if the registry is known to be trustworthy.")) >>
  reading (fun o => BoolVar FSkipCleanup "skip-cleanup"
    (bools o FSkipCleanup) "Skip removal of artifact directories") >>
  reading (fun o => BoolVar FIgnoreHistory "ignore-history"
    (bools o FIgnoreHistory)
    "Ignore past mirrors when downloading images and packing layers") >>
  reading (fun o => BoolVar FSkipMetadataCheck "skip-metadata-check"
    (bools o FSkipMetadataCheck)
    ("Skip metadata when publishing an imageset." +:+
     "This is only recommended when the imageset was created --ignore-history")) >>
  reading (fun o => BoolVar FContinueOnError "continue-on-error"
    (bools o FContinueOnError)
    ("If an error occurs, keep going " +:+
     "and attempt to complete operations if possible")) >>
  reading (fun o => BoolVar FSkipMissing "skip-missing"
    (bools o FSkipMissing)
    ("If an input image is not found, skip them. " +:+
     "404/NotFound errors encountered while pulling images explicitly specified in the config " +:+
     "will not be skipped")) >>
  IntVar FMaxPerRegistry "max-per-registry" 6
    "Number of concurrent requests allowed per registry" >>
  reading (fun o => BoolVar FUseOCIFeature "use-oci-feature"
    (bools o FUseOCIFeature)
    "Use the new oci feature for oc mirror (oci formatted copy") >>
  reading (fun o => StringVar FOCIRegistriesConfig "oci-registries-config"
    (strs o FOCIRegistriesConfig)
    "Registries config file location (used only with --use-oci-feature flag)") >>
  reading (fun o => BoolVar FOCIInsecureSignaturePolicy
    "oci-insecure-signature-policy" (bools o FOCIInsecureSignaturePolicy)
    "If set, OCI catalog push will not try to push signatures").

(** ** Vocabulary of the statements *)

(** Options as Go zeroes them, and an empty flag set. *)
Definition zero_options : Options :=
  mkOptions (fun _ => "") (fun _ => 0) (fun _ => false).

Definition empty_flags (name : string) : FlagSet := mkFlagSet name [].

(** The names and shorthands the two [BindFlags] define. *)
Definition root_names : list string := ["dir"; "verbose"].

Definition mirror_names : list string :=
  ["config"; "skip-image-pin"; "from"; "manifests-only"; "dry-run";
   "source-skip-tls"; "dest-skip-tls"; "source-use-http"; "dest-use-http";
   "skip-verification"; "skip-cleanup"; "ignore-history";
   "skip-metadata-check"; "continue-on-error"; "skip-missing";
   "max-per-registry"; "use-oci-feature"; "oci-registries-config";
   "oci-insecure-signature-policy"].

(** A flag set that defines none of the names and uses none of the
    shorthands. *)
Definition free_of (names shorthands : list string) (fs : FlagSet) : Prop :=
  Forall (fun n => Lookup n fs = None) names
  /\ Forall (fun c => shorthand_of c fs = None) shorthands.

(** [fs] with one more flag at the end. *)
Definition with_flag (fs : FlagSet) (f : Flag) : FlagSet :=
  mkFlagSet (fs_name fs) (formal fs ++ [f]).

(** The two flags [RootOptions.BindFlags] leaves in the set. *)
Definition dir_flag : Flag :=
  mkFlag "dir" "d" "Assets directory" (BString FDir) "oc-mirror-workspace"
         "" true.

Definition verbose_flag (level : Z) : Flag :=
  mkFlag "verbose" "v"
         "Number for the log level verbosity (valid 1-9, default is 0)"
         (BInt FLogLevel) (pretty level) "" false.

(** The text [pflag] shows for the variable behind a flag. *)
Definition shown (o : Options) (v : Binding) : string :=
  match v with
  | BString p => strs o p
  | BInt p => pretty (ints o p)
  | BBool p => if bools o p then "true" else "false"
  end.

(** A binder that, when it returns, keeps the name of the flag set and
    every flag name that was defined. *)
Definition Grows (b : Binder) : Prop :=
  forall s s', b s = Done s' ->
    fs_name s'.2 = fs_name s.2
    /\ forall n, is_Some (Lookup n s.2) -> is_Some (Lookup n s'.2).

(** What [MirrorOptions.BindFlags] leaves of zeroed options and an
    empty flag set. *)
Definition mirror_bound : Options * FlagSet :=
  match MirrorOptions_BindFlags (zero_options, empty_flags "oc-mirror") with
  | Done s => s
  | _ => (zero_options, empty_flags "oc-mirror")
  end.

Definition same_options (o1 o2 : Options) : Prop :=
  (forall p, strs o1 p = strs o2 p)
  /\ (forall p, ints o1 p = ints o2 p)
  /\ (forall p, bools o1 p = bools o2 p).

End Flags.

(** * Properties of the logging hooks *)

Module LoggingFacts.
Import Logging.

Ltac unfold_setup :=
  unfold LogfilePreRun, bind, ret, flag_Set, checkErr, klog_Fatal,
    os_OpenFile, klog_SetOutput, logrus_SetOutput, logrus_SetLevel,
    logrus_AddHook, setupFileHook, setup_errors, flag_settings.

(** What a setup that returns has done. *)
Lemma LogfilePreRun_Ok env o w o' w' :
  LogfilePreRun env o w = Ok o' w' ->
  setup_errors env o = []
  /\ o' = {| streams :=
               {| In := In (streams o);
                  Out := io_MultiWriter
                           [Out (streams o); FileWriter (length (files w))];
                  ErrOut := io_MultiWriter
                              [ErrOut (streams o);
                               FileWriter (length (files w))] |};
             Dir := Dir o;
             LogLevel := LogLevel o;
             logfileCleanup :=
               Some (klog_Flush ;;;
                     (fun w0 => Ok tt (emit (EvLogrusCleanup
                                               (length (files w))) w0)) ;;;
                     e <- file_Close env (length (files w)) ;; checkErr e) |}
  /\ klog_flags w' = rev (flag_settings o) ++ klog_flags w
  /\ klog_out w' = Some (io_MultiWriter
                           [Out (streams o); FileWriter (length (files w))])
  /\ logrus_out w' = Some Discard
  /\ logrus_level w' = logrusLevelOf (LogLevel o)
  /\ logrus_hooks w' = logrus_hooks w ++ [the_hook o]
  /\ files w' = files w ++
       [mkFile ".oc-mirror.log" (Z.lor (Z.lor O_CREATE O_APPEND) O_RDWR)
               perm0600 false]
  /\ trace w' = trace w ++
       map (fun nv => EvFlagSet nv.1 nv.2) (flag_settings o) ++
       [EvOpenFile ".oc-mirror.log" (Z.lor (Z.lor O_CREATE O_APPEND) O_RDWR)
                   perm0600;
        EvKlogSetOutput (io_MultiWriter
                           [Out (streams o); FileWriter (length (files w))]);
        EvLogrusSetOutput Discard;
        EvLogrusSetLevel (logrusLevelOf (LogLevel o));
        EvLogrusAddHook (the_hook o);
        EvSetupFileHook (length (files w))].
Proof.
  unfold_setup. cbn.
  destruct (flag_set_err env "stderrthreshold" "4"); [discriminate|].
  destruct (flag_set_err env "skip_headers" "true"); [discriminate|].
  destruct (flag_set_err env "logtostderr" "false"); [discriminate|].
  destruct (flag_set_err env "alsologtostderr" "false"); [discriminate|].
  destruct (flag_set_err env "v" (pretty (LogLevel o))); [discriminate|].
  destruct (open_err env); [discriminate|].
  cbn. intros H. injection H as <- <-. cbn.
  rewrite <- !app_assoc. cbn. repeat split.
Qed.

(** Setup returns when no fallible step fails. *)
Lemma LogfilePreRun_succeeds env o w :
  setup_errors env o = [] ->
  exists o' w', LogfilePreRun env o w = Ok o' w'.
Proof.
  unfold_setup. cbn.
  destruct (flag_set_err env "stderrthreshold" "4"); [discriminate|].
  destruct (flag_set_err env "skip_headers" "true"); [discriminate|].
  destruct (flag_set_err env "logtostderr" "false"); [discriminate|].
  destruct (flag_set_err env "alsologtostderr" "false"); [discriminate|].
  destruct (flag_set_err env "v" (pretty (LogLevel o))); [discriminate|].
  destruct (open_err env); [discriminate|].
  intros _. cbn. eexists _, _. reflexivity.
Qed.

(** ** The severity mapping *)

(** C1: after setup the level of the secondary logger (logrus) is info
    for verbosity 0, debug for 1 and for 2, and trace from 3 upwards. *)
Theorem setup_resolves_severity env o w o' w' :
  LogfilePreRun env o w = Ok o' w' ->
  (LogLevel o = 0 -> logrus_level w' = InfoLevel)
  /\ (LogLevel o = 1 -> logrus_level w' = DebugLevel)
  /\ (LogLevel o = 2 -> logrus_level w' = DebugLevel)
  /\ (3 <= LogLevel o -> logrus_level w' = TraceLevel).
Proof.
  intros H. apply LogfilePreRun_Ok in H as (_ & _ & _ & _ & _ & Hl & _).
  rewrite Hl. unfold logrusLevelOf.
  repeat split; intros Hv.
  - now rewrite Hv.
  - now rewrite Hv.
  - now rewrite Hv.
  - destruct (Z.eqb_spec (LogLevel o) 0); [lia|].
    destruct (Z.eqb_spec (LogLevel o) 1); [lia|].
    destruct (Z.eqb_spec (LogLevel o) 2); [lia|]. reflexivity.
Qed.

Lemma setup_resolves_severity_witness :
  logrus_level (after_setup 0).2 = InfoLevel
  /\ logrus_level (after_setup 1).2 = DebugLevel
  /\ logrus_level (after_setup 2).2 = DebugLevel
  /\ logrus_level (after_setup 3).2 = TraceLevel
  /\ logrus_level (after_setup 9).2 = TraceLevel.
Proof.
  pose (thm := fun v =>
    setup_resolves_severity env_ok (options0 v) world0
      (after_setup v).1 (after_setup v).2).
  split; [|split; [|split; [|split]]].
  - apply (proj1 (thm 0 ltac:(vm_compute; reflexivity))). reflexivity.
  - apply (proj1 (proj2 (thm 1 ltac:(vm_compute; reflexivity)))).
    reflexivity.
  - apply (proj1 (proj2 (proj2 (thm 2 ltac:(vm_compute; reflexivity))))).
    reflexivity.
  - apply (proj2 (proj2 (proj2 (thm 3 ltac:(vm_compute; reflexivity))))).
    simpl. lia.
  - apply (proj2 (proj2 (proj2 (thm 9 ltac:(vm_compute; reflexivity))))).
    simpl. lia.
Defined.

(** C10: the mapping is defined on every integer, and every verbosity
    other than 0, 1 and 2, negative ones included, resolves to trace:
    the [default] branch of the switch. *)
Theorem severity_default_is_trace (v : Z) :
  v <> 0 -> v <> 1 -> v <> 2 ->
  logrusLevelOf v = TraceLevel
  /\ forall env w o' w',
       LogfilePreRun env (options0 v) w = Ok o' w' ->
       logrus_level w' = TraceLevel.
Proof.
  intros H0 H1 H2.
  assert (Hl : logrusLevelOf v = TraceLevel).
  { unfold logrusLevelOf.
    destruct (Z.eqb_spec v 0); [contradiction|].
    destruct (Z.eqb_spec v 1); [contradiction|].
    destruct (Z.eqb_spec v 2); [contradiction|]. reflexivity. }
  split; [exact Hl|].
  intros env w o' w' H.
  apply LogfilePreRun_Ok in H as (_ & _ & _ & _ & _ & Hw & _).
  rewrite Hw. exact Hl.
Qed.

Lemma severity_default_is_trace_witness :
  logrusLevelOf (-1) = TraceLevel
  /\ logrusLevelOf 10 = TraceLevel
  /\ logrus_level (after_setup (-7)).2 = TraceLevel.
Proof.
  split; [|split].
  - apply (severity_default_is_trace (-1)); lia.
  - apply (severity_default_is_trace 10); lia.
  - refine (proj2 (severity_default_is_trace (-7) _ _ _) env_ok world0
              (after_setup (-7)).1 (after_setup (-7)).2 _);
      [lia | lia | lia | vm_compute; reflexivity].
Defined.

(** ** The hook on the secondary logger *)




(** ** The streams of the options *)

Lemma flat_map_targets_splice w :
  flat_map targets (spliceWriter w) = targets w.
Proof. destruct w; simpl; try reflexivity; apply app_nil_r. Qed.

(** A write to [io.MultiWriter ws] reaches what the writers of [ws]
    reach. *)
Lemma targets_io_MultiWriter ws :
  targets (io_MultiWriter ws) = flat_map targets ws.
Proof.
  unfold io_MultiWriter. simpl.
  induction ws as [|w ws IH]; simpl; [reflexivity|].
  rewrite flat_map_app, flat_map_targets_splice, IH. reflexivity.
Qed.

(** C6: after setup the options' output stream is the fan-out of the
    former output stream and the log file, the error stream the fan-out
    of the former error stream and the log file, and the input stream is
    the one it was. *)
Theorem setup_rebinds_streams env o w o' w' :
  LogfilePreRun env o w = Ok o' w' ->
  exists logFile f,
    files w' !! logFile = Some f
    /\ f_name f = ".oc-mirror.log" /\ f_closed f = false
    /\ Out (streams o') = io_MultiWriter [Out (streams o); FileWriter logFile]
    /\ ErrOut (streams o')
       = io_MultiWriter [ErrOut (streams o); FileWriter logFile]
    /\ targets (Out (streams o'))
       = targets (Out (streams o)) ++ [FileWriter logFile]
    /\ targets (ErrOut (streams o'))
       = targets (ErrOut (streams o)) ++ [FileWriter logFile]
    /\ In (streams o') = In (streams o).
Proof.
  intros H.
  apply LogfilePreRun_Ok in H as (_ & -> & _ & _ & _ & _ & _ & Hf & _).
  eexists (length (files w)), _. rewrite Hf. split.
  { rewrite lookup_app_r by reflexivity.
    rewrite Nat.sub_diag. reflexivity. }
  cbn [streams Out ErrOut In f_name f_closed].
  rewrite !targets_io_MultiWriter. simpl. rewrite ?app_nil_r.
  repeat split.
Qed.

Lemma setup_rebinds_streams_witness :
  exists logFile f,
    files (after_setup 0).2 !! logFile = Some f
    /\ f_name f = ".oc-mirror.log" /\ f_closed f = false
    /\ Out (streams (after_setup 0).1)
       = io_MultiWriter [Stream "stdout"; FileWriter logFile]
    /\ ErrOut (streams (after_setup 0).1)
       = io_MultiWriter [Stream "stderr"; FileWriter logFile]
    /\ targets (Out (streams (after_setup 0).1))
       = [Stream "stdout"; FileWriter logFile]
    /\ targets (ErrOut (streams (after_setup 0).1))
       = [Stream "stderr"; FileWriter logFile]
    /\ In (streams (after_setup 0).1) = "stdin".
Proof.
  exact (setup_rebinds_streams env_ok (options0 0) world0
           (after_setup 0).1 (after_setup 0).2
           ltac:(vm_compute; reflexivity)).
Defined.

(** ** The log file *)

Lemma open_calls_app t1 t2 :
  open_calls (t1 ++ t2) = open_calls t1 ++ open_calls t2.
Proof. apply omap_app. Qed.

(** C7: setup makes one open call, for the name [.oc-mirror.log] (no
    directory part, so relative to the working directory), with the flag
    word [O_CREATE|O_APPEND|O_RDWR] and nothing else: create and append
    are set, the access mode is read and write, and neither truncation
    nor exclusive creation is asked for; the permission bits are 0600,
    read and write for the owner, nothing for anyone else; the file it
    gets is the new entry of the file table. *)
Theorem setup_opens_log_file env o w o' w' :
  LogfilePreRun env o w = Ok o' w' ->
  exists flag perm,
    open_calls (trace w')
      = open_calls (trace w) ++ [(".oc-mirror.log", flag, perm)]
    /\ files w' = files w ++ [mkFile ".oc-mirror.log" flag perm false]
    /\ String.index 0 "/" ".oc-mirror.log" = None
    /\ Z.land flag O_CREATE = O_CREATE
    /\ Z.land flag O_APPEND = O_APPEND
    /\ perm = 6 * 8 * 8
    /\ Z.land perm (Z.lor (7 * 8) 7) = 0
    /\ Z.land perm (1 * 8 * 8) = 0
    /\ flag = Z.lor (Z.lor O_CREATE O_APPEND) O_RDWR
    /\ flag = 1090
    /\ Z.land flag O_ACCMODE = O_RDWR
    /\ Z.land flag O_TRUNC = 0
    /\ Z.land flag O_EXCL = 0.
Proof.
  intros H.
  apply LogfilePreRun_Ok in H as (_ & _ & _ & _ & _ & _ & _ & Hf & Ht).
  exists (Z.lor (Z.lor O_CREATE O_APPEND) O_RDWR), perm0600.
  rewrite Hf, Ht, !open_calls_app. simpl.
  repeat split.
Qed.

Lemma setup_opens_log_file_witness :
  exists flag perm,
    open_calls (trace (after_setup 4).2)
      = [(".oc-mirror.log", flag, perm)]
    /\ files (after_setup 4).2 = [mkFile ".oc-mirror.log" flag perm false]
    /\ String.index 0 "/" ".oc-mirror.log" = None
    /\ Z.land flag O_CREATE = O_CREATE
    /\ Z.land flag O_APPEND = O_APPEND
    /\ perm = 6 * 8 * 8
    /\ Z.land perm (Z.lor (7 * 8) 7) = 0
    /\ Z.land perm (1 * 8 * 8) = 0
    /\ flag = Z.lor (Z.lor O_CREATE O_APPEND) O_RDWR
    /\ flag = 1090
    /\ Z.land flag O_ACCMODE = O_RDWR
    /\ Z.land flag O_TRUNC = 0
    /\ Z.land flag O_EXCL = 0.
Proof.
  exact (setup_opens_log_file env_ok (options0 4) world0
           (after_setup 4).1 (after_setup 4).2
           ltac:(vm_compute; reflexivity)).
Defined.

(** ** Failures during setup *)


Example open_failure_is_fatal :
  let r := LogfilePreRun env_no_open (options0 0) world0 in
  fatal_msg r = Some "open .oc-mirror.log: permission denied"
  /\ logrus_hooks (world_of r) = [] /\ files (world_of r) = [].
Proof. vm_compute. repeat split. Qed.

Example flag_failure_is_fatal :
  let r := LogfilePreRun env_bad_v (options0 0) world0 in
  fatal_msg r = Some "bad verbosity"
  /\ open_calls (trace (world_of r)) = [].
Proof. vm_compute. repeat split. Qed.

(** ** Teardown *)

(** C2, as stated, fails: setup, teardown, teardown runs the stored
    closure twice, and the second close of the log file ends the process
    with an error. *)
Lemma second_teardown_is_fatal :
  let r := calls env_ok [PreRun; PostRun; PostRun] (options0 0) world0 in
  fatal_msg r = Some "close .oc-mirror.log: file already closed"
  /\ count_event is_flush (trace (world_of r)) = 2%nat
  /\ count_event is_close (trace (world_of r)) = 2%nat.
Proof. vm_compute. repeat split. Qed.

Lemma teardown_without_cleanup env o w n :
  logfileCleanup o = None ->
  calls env (replicate n PostRun) o w = Ok o w.
Proof.
  intros Hc. induction n as [|n IH]; simpl; [reflexivity|].
  unfold bind at 1. unfold call, LogfilePostRun. rewrite Hc.
  unfold bind, ret in *. exact IH.
Qed.

(** C2, amended: teardown on options that hold no cleanup closure, any
    number of times, returns without error and changes nothing; teardown
    on options that hold one runs it, once per call, and the closure
    stays stored.  After a setup the first teardown flushes, cleans up
    the file hook and closes the log file; one more teardown runs the
    closure again and ends the process on the error of closing the
    closed file. *)
Theorem teardown_runs_stored_cleanup env o w :
  (logfileCleanup o = None ->
   forall n, calls env (replicate n PostRun) o w = Ok o w)
  /\ (forall f, logfileCleanup o = Some f -> LogfilePostRun o w = f w)
  /\ (forall o1 w1,
        LogfilePreRun env o w = Ok o1 w1 ->
        close_err env = None ->
        exists fd w2 w3,
          calls env [PostRun] o1 w1 = Ok o1 w2
          /\ trace w2
             = trace w1 ++ [EvKlogFlush; EvLogrusCleanup fd; EvClose fd]
          /\ f_closed <$> files w1 !! fd = Some false
          /\ f_closed <$> files w2 !! fd = Some true
          /\ calls env [PostRun] o1 w2
             = Fatal "close .oc-mirror.log: file already closed" w3
          /\ trace w3
             = trace w2 ++ [EvKlogFlush; EvLogrusCleanup fd; EvClose fd]).
Proof.
  split; [|split].
  - intros Hc n. now apply teardown_without_cleanup.
  - intros f Hf. unfold LogfilePostRun. now rewrite Hf.
  - intros o1 w1 H Hce.
    apply LogfilePreRun_Ok in H as (_ & -> & _ & _ & _ & _ & _ & Hf & _).
    assert (Hlook : files w1 !! length (files w)
                    = Some (mkFile ".oc-mirror.log"
                              (Z.lor (Z.lor O_CREATE O_APPEND) O_RDWR)
                              perm0600 false)).
    { rewrite Hf, lookup_app_r by reflexivity.
      now rewrite Nat.sub_diag. }
    assert (Hlt : (length (files w) < length (files w1))%nat).
    { rewrite Hf, length_app. simpl. lia. }
    exists (length (files w)).
    unfold calls, call, LogfilePostRun, bind, ret, klog_Flush, file_Close,
      checkErr, klog_Fatal, emit.
    cbn [logfileCleanup files trace klog_flags klog_out logrus_out
         logrus_level logrus_hooks].
    rewrite Hlook. cbn [f_closed f_name f_flag f_perm]. rewrite Hce.
    eexists _, _. split; [reflexivity|].
    cbn [logfileCleanup files trace klog_flags klog_out logrus_out
         logrus_level logrus_hooks].
    rewrite list_lookup_insert_eq by exact Hlt.
    cbn [f_closed f_name f_flag f_perm fmap option_fmap option_map].
    rewrite <- !app_assoc. simpl. repeat split.
Qed.

Lemma teardown_runs_stored_cleanup_witness :
  (forall n, calls env_ok (replicate n PostRun) (options0 0) world0
             = Ok (options0 0) world0)
  /\ exists fd w2 w3,
       calls env_ok [PostRun] (after_setup 0).1 (after_setup 0).2
         = Ok (after_setup 0).1 w2
       /\ trace w2 = trace (after_setup 0).2
                     ++ [EvKlogFlush; EvLogrusCleanup fd; EvClose fd]
       /\ f_closed <$> files (after_setup 0).2 !! fd = Some false
       /\ f_closed <$> files w2 !! fd = Some true
       /\ calls env_ok [PostRun] (after_setup 0).1 w2
          = Fatal "close .oc-mirror.log: file already closed" w3
       /\ trace w3
          = trace w2 ++ [EvKlogFlush; EvLogrusCleanup fd; EvClose fd].
Proof.
  split.
  - exact (proj1 (teardown_runs_stored_cleanup env_ok (options0 0) world0)
             eq_refl).
  - exact (proj2 (proj2
             (teardown_runs_stored_cleanup env_ok (options0 0) world0))
             (after_setup 0).1 (after_setup 0).2
             ltac:(vm_compute; reflexivity) eq_refl).
Defined.



End LoggingFacts.

(** * Properties of the cancellation machinery *)

Module CancelFacts.
Import Cancel.

Local Open Scope nat_scope.

(** ** Counting callers by program point *)

Lemma count_cons p x l : count p (x :: l) = b2n (p x) + count p l.
Proof. unfold count. simpl. destruct (p x); reflexivity. Qed.

Lemma count_insert p (l : list CallPc) i x y :
  l !! i = Some x ->
  count p (<[i := y]> l) + b2n (p x) = count p l + b2n (p y).
Proof.
  revert i. induction l as [|z l IH]; intros [|i] H; simplify_eq/=.
  - rewrite !count_cons. lia.
  - rewrite !count_cons. specialize (IH _ H). lia.
Qed.

Lemma count_replicate_false p n pc :
  p pc = false -> count p (replicate n pc) = 0.
Proof.
  intros H. induction n as [|n IH]; [reflexivity|].
  cbn [replicate]. rewrite count_cons, H, IH. reflexivity.
Qed.

Lemma count_pos p (l : list CallPc) i x :
  l !! i = Some x -> p x = true -> 0 < count p l.
Proof.
  revert i. induction l as [|z l IH]; intros [|i] H Hp; simplify_eq/=.
  - rewrite count_cons, Hp. simpl. lia.
  - rewrite count_cons. specialize (IH _ H Hp). lia.
Qed.

(** ** The invariant of [sync.Once] around [init] *)

Lemma OnceInv_start n : OnceInv (start n).
Proof.
  split; simpl; intros;
    rewrite ?count_replicate_false by reflexivity; reflexivity.
Qed.

Ltac count_step E y :=
  pose proof (count_insert at_recheck _ _ _ y E);
  pose proof (count_insert at_init _ _ _ y E);
  pose proof (count_insert at_store _ _ _ y E);
  pose proof (count_insert at_unlock _ _ _ y E);
  pose proof (count_insert past_once _ _ _ y E).

Ltac once_arith :=
  unfold b2n in *;
  cbn [at_recheck at_init at_store at_unlock past_once] in *;
  repeat match goal with
         | H : ?b = ?b -> _ |- _ => specialize (H eq_refl)
         | H : true = false -> _ |- _ => clear H
         | H : false = true -> _ |- _ => clear H
         end;
  rewrite ?length_app; cbn [length];
  repeat match goal with
         | |- context [?a =? ?b] => destruct (Nat.eqb_spec a b)
         | H : context [?a =? ?b] |- _ => destruct (Nat.eqb_spec a b)
         end;
  try discriminate; try assumption; try lia; try (f_equal; lia).

Lemma OnceInv_step_call i st st' :
  OnceInv st -> step_call i st = Some st' -> OnceInv st'.
Proof.
  intros [Hm Hb Hd Hn Hc]. unfold step_call.
  destruct (callers st !! i) as [pc|] eqn:E; [|discriminate].
  destruct (once_done st) eqn:D, (once_locked st) eqn:L;
    destruct pc; try discriminate; intros [= <-];
    match goal with
    | |- OnceInv (set_callers (<[_ := ?y]> _) _) => count_step E y
    end;
    split; cbn [set_callers set_locked set_done init withCancel set_derived
                once_done once_locked cancelCh bridges callers derived];
    rewrite ?D, ?L; intros; once_arith.
Qed.

(** The other goroutines touch neither the callers nor the [Once], and
    keep the number of bridges. *)
Lemma OnceInv_frame st st' :
  once_done st' = once_done st ->
  once_locked st' = once_locked st ->
  cancelCh st' = cancelCh st ->
  callers st' = callers st ->
  length (bridges st') = length (bridges st) ->
  OnceInv st -> OnceInv st'.
Proof.
  intros Hd Hl Hc Hcs Hb [I1 I2 I3 I4 I5].
  split; rewrite ?Hd, ?Hl, ?Hc, ?Hcs, ?Hb; assumption.
Qed.

Lemma OnceInv_step a st st' :
  OnceInv st -> step a st = Some st' -> OnceInv st'.
Proof.
  intros I. destruct a as [i|s|b|j|j|j]; simpl.
  - now apply OnceInv_step_call.
  - intros [= <-]. revert I. apply OnceInv_frame; simpl; try reflexivity.
    apply length_map.
  - unfold step_bridge. intros H.
    destruct (bridges st !! b) as [br|]; [|discriminate].
    destruct (bridge_pc br), (signalCh br); simplify_eq.
    revert I. apply OnceInv_frame; simpl; try reflexivity.
    apply length_insert.
  - unfold step_watcher_recv. intros H.
    destruct (derived st !! j) as [d|]; [|discriminate].
    destruct (cancelCh st) as [b|] eqn:C; [|discriminate].
    destruct (watcher d); try discriminate.
    destruct (bridges st !! b) as [br|]; [|discriminate].
    destruct (bridge_pc br); simplify_eq.
    revert I. apply OnceInv_frame; simpl; try reflexivity; try assumption.
    apply length_insert.
  - unfold step_watcher. intros H.
    destruct (derived st !! j) as [d|]; [|discriminate].
    destruct (watcher d), (ctx_done d); simplify_eq;
      revert I; apply OnceInv_frame; reflexivity.
  - unfold step_cancel. intros H.
    destruct (derived st !! j) as [d|]; simplify_eq.
    revert I. apply OnceInv_frame; reflexivity.
Qed.

(** An invariant of every step that holds at the start holds along every
    schedule. *)
Lemma run_invariant (P : State -> Prop) :
  (forall a st st', P st -> step a st = Some st' -> P st') ->
  forall sched st, P st -> P (run sched st).
Proof.
  intros Hstep sched. induction sched as [|a sched IH]; intros st H.
  - exact H.
  - simpl. apply IH. unfold exec.
    destruct (step a st) as [st'|] eqn:E; [eapply Hstep; eauto | exact H].
Qed.

Lemma OnceInv_run n sched : OnceInv (run sched (start n)).
Proof.
  apply run_invariant; [apply OnceInv_step | apply OnceInv_start].
Qed.

Lemma run_app s1 s2 st : run (s1 ++ s2) st = run s2 (run s1 st).
Proof. unfold run. apply fold_left_app. Qed.

(** ** Bridges *)

Lemma BridgeInv_notify s b : BridgeInv b -> BridgeInv (notify s b).
Proof.
  intros [Hn Hc Hf]. unfold notify.
  destruct (existsb _ _); [|now split].
  destruct (Nat.ltb_spec (length (signalCh b)) signalCh_cap);
    split; unfold pending in *; simpl; try assumption;
    rewrite ?length_app; unfold signalCh_cap in *; simpl; lia.
Qed.

Lemma BridgesInv_step a st st' :
  BridgesInv st -> step a st = Some st' -> BridgesInv st'.
Proof.
  unfold BridgesInv. intros I. destruct a as [i|s|b|j|j|j]; simpl.
  - unfold step_call.
    destruct (callers st !! i) as [pc|]; [|discriminate].
    destruct pc; try destruct (once_locked st); intros H; simplify_eq;
      simpl; try assumption.
    all: apply Forall_app; split; [assumption|].
    all: constructor; [|constructor].
    all: split; simpl; unfold signalCh_cap; auto.
  - intros [= <-]. simpl. apply Forall_fmap. 
    eapply Forall_impl; [exact I|]. intros br. apply BridgeInv_notify.
  - unfold step_bridge. intros H.
    destruct (bridges st !! b) as [br|] eqn:E; [|discriminate].
    destruct (bridge_pc br) eqn:P, (signalCh br) eqn:Q; simplify_eq.
    simpl. apply Forall_insert; [assumption|].
    destruct (Forall_lookup_1 _ _ _ _ I E) as [Hn Hc Hf].
    unfold pending in *. rewrite P, Q in *. simpl in *.
    split; unfold pending; simpl; try assumption; lia.
  - unfold step_watcher_recv. intros H.
    destruct (derived st !! j) as [d|]; [|discriminate].
    destruct (cancelCh st) as [b|]; [|discriminate].
    destruct (watcher d); try discriminate.
    destruct (bridges st !! b) as [br|] eqn:E; [|discriminate].
    destruct (bridge_pc br) eqn:P; simplify_eq.
    simpl. apply Forall_insert; [assumption|].
    destruct (Forall_lookup_1 _ _ _ _ I E) as [Hn Hc Hf].
    unfold pending in *. rewrite P in *. simpl in *.
    split; unfold pending; simpl; try assumption; lia.
  - unfold step_watcher. intros H.
    destruct (derived st !! j) as [d|]; [|discriminate].
    destruct (watcher d), (ctx_done d); simplify_eq; assumption.
  - unfold step_cancel. intros H.
    destruct (derived st !! j) as [d|]; simplify_eq. assumption.
Qed.

Lemma BridgesInv_run n sched : BridgesInv (run sched (start n)).
Proof.
  apply run_invariant; [apply BridgesInv_step | constructor].
Qed.

(** ** Watchers *)

Lemma WatchersInv_step a st st' :
  WatchersInv st -> step a st = Some st' -> WatchersInv st'.
Proof.
  unfold WatchersInv. intros I. destruct a as [i|s|b|j|j|j]; simpl.
  - unfold step_call.
    destruct (callers st !! i) as [pc|]; [|discriminate].
    destruct pc; try destruct (once_locked st); intros H; simplify_eq;
      simpl; try assumption.
    all: apply Forall_app; split; [assumption|].
    all: constructor; [reflexivity | constructor].
  - intros [= <-]. assumption.
  - unfold step_bridge. intros H.
    destruct (bridges st !! b) as [br|]; [|discriminate].
    destruct (bridge_pc br), (signalCh br); simplify_eq. assumption.
  - unfold step_watcher_recv. intros H.
    destruct (derived st !! j) as [d|] eqn:E; [|discriminate].
    destruct (cancelCh st) as [b|]; [|discriminate].
    destruct (watcher d) eqn:W; try discriminate.
    destruct (bridges st !! b) as [br|]; [|discriminate].
    destruct (bridge_pc br); simplify_eq.
    simpl. apply Forall_insert; [assumption|].
    pose proof (Forall_lookup_1 _ _ _ _ I E) as Hd.
    unfold DerivedInv in *. rewrite W in Hd. simpl. now rewrite Hd.
  - unfold step_watcher. intros H.
    destruct (derived st !! j) as [d|] eqn:E; [|discriminate].
    pose proof (Forall_lookup_1 _ _ _ _ I E) as Hd.
    unfold DerivedInv in Hd.
    destruct (watcher d) eqn:W; [destruct (ctx_done d) eqn:C|..];
      simplify_eq; simpl; apply Forall_insert; try assumption;
      unfold DerivedInv; simpl; rewrite Hd; auto.
  - unfold step_cancel. intros H.
    destruct (derived st !! j) as [d|] eqn:E; simplify_eq.
    simpl. apply Forall_insert; [assumption|].
    pose proof (Forall_lookup_1 _ _ _ _ I E) as Hd.
    unfold DerivedInv in *. simpl.
    destruct (watcher d); [assumption..|]. split; [apply Hd | reflexivity].
Qed.

Lemma WatchersInv_run n sched : WatchersInv (run sched (start n)).
Proof.
  apply run_invariant; [apply WatchersInv_step | constructor].
Qed.

(** ** Calls one after the other *)

Lemma exec_returned i st ctx :
  callers st !! i = Some (Returned ctx) -> exec (Call i) st = st.
Proof. intros H. unfold exec. simpl. unfold step_call. now rewrite H. Qed.

(** A call that finds the done flag set derives its context and
    returns. *)
Lemma whole_call_later pre post st :
  once_done st = true ->
  callers st = pre ++ AtOnceDo :: post ->
  run (whole_call (length pre)) st
  = set_callers (pre ++ Returned (length (derived st)) :: post)
                (withCancel st).
Proof.
  intros D Hc.
  assert (Hi : forall x (l : list CallPc),
             <[length pre := x]> (pre ++ l) = pre ++ <[0 := x]> l).
  { intros x l. rewrite <- (Nat.add_0_r (length pre)) at 1.
    apply insert_app_r. }
  set (st2 := set_callers _ (withCancel st)).
  assert (H2 : exec (Call (length pre)) (exec (Call (length pre)) st) = st2).
  { (* the load on the fast path *)
    unfold exec at 2. cbn [step]. unfold step_call.
    rewrite Hc, (list_lookup_middle pre post AtOnceDo _ eq_refl), D, Hi.
    cbn [list_insert insert].
    (* WithCancel *)
    unfold exec. cbn [step]. unfold step_call.
    cbn [set_callers callers].
    rewrite (list_lookup_middle pre post AtWithCancel _ eq_refl), Hi.
    reflexivity. }
  assert (H3 : exec (Call (length pre)) st2 = st2).
  { apply exec_returned with (ctx := length (derived st)).
    apply list_lookup_middle. reflexivity. }
  unfold whole_call. cbn [replicate run fold_left].
  rewrite H2, !H3. reflexivity.
Qed.

Lemma run_later_calls k : forall pre st,
  once_done st = true ->
  Forall returned pre ->
  callers st = pre ++ replicate k AtOnceDo ->
  Forall returned (callers (run (flat_map whole_call (seq (length pre) k)) st))
  /\ bridges (run (flat_map whole_call (seq (length pre) k)) st) = bridges st.
Proof.
  induction k as [|k IH]; intros pre st D Hp Hc.
  - simpl. rewrite Hc, app_nil_r. auto.
  - cbn [seq flat_map]. rewrite run_app.
    rewrite (whole_call_later pre (replicate k AtOnceDo) st D Hc).
    set (st1 := set_callers _ _).
    specialize (IH (pre ++ [Returned (length (derived st))]) st1).
    rewrite length_app, Nat.add_1_r in IH. cbn [length] in IH.
    destruct IH as [IH1 IH2].
    + exact D.
    + apply Forall_app. split; [assumption|].
      constructor; [reflexivity | constructor].
    + unfold st1. cbn [set_callers callers]. now rewrite <- app_assoc.
    + split; [exact IH1|]. rewrite IH2. reflexivity.
Qed.

(** [n] calls made one after the other all return, and from the first
    on there is one bridge. *)
Lemma sequential_calls_return n :
  Forall returned (callers (run (sequential (S n)) (start (S n))))
  /\ length (bridges (run (sequential (S n)) (start (S n)))) = 1.
Proof.
  unfold sequential. cbn [seq flat_map]. rewrite run_app.
  set (st1 := run (whole_call 0) (start (S n))).
  assert (H1 : st1 = mkState true false (Some 0)
                       [makeCancelCh [SIGINT; SIGTERM]]
                       (Returned 0 :: replicate n AtOnceDo)
                       [mkDerived false AtSelect []]) by reflexivity.
  destruct (run_later_calls n [Returned 0] st1) as [Hr Hb].
  - now rewrite H1.
  - constructor; [reflexivity | constructor].
  - now rewrite H1.
  - split; [exact Hr|]. cbn [length] in Hb. rewrite Hb, H1. reflexivity.
Qed.

(** ** Registration happens once *)

(** ** The one bridge of a [MirrorOptions] value *)

Lemma OnceInv_bridges_le st : OnceInv st -> length (bridges st) <= 1.
Proof.
  intros [Hm Hb Hd Hn Hc].
  destruct (once_done st) eqn:D.
  - specialize (Hd eq_refl). rewrite Hb. simpl. lia.
  - rewrite Hb. destruct (once_locked st); simpl in *; lia.
Qed.

Lemma OnceInv_the_bridge st b br :
  OnceInv st -> bridges st !! b = Some br ->
  b = 0 /\ bridges st = [br] /\ cancelCh st = Some 0.
Proof.
  intros I Hb. pose proof (OnceInv_bridges_le st I) as Hle.
  destruct I as [_ _ _ _ Hc]. revert Hb Hle Hc.
  destruct (bridges st) as [|b0 [|b1 l]]; intros Hb Hle Hc.
  - destruct b; discriminate.
  - destruct b as [|[|b]]; try discriminate.
    injection Hb as ->. auto.
  - cbn in Hle. lia.
Qed.

Lemma notify_free pc a dr em s :
  s = SIGINT \/ s = SIGTERM ->
  notify s (mkBridge [SIGINT; SIGTERM] [] pc a dr em)
  = mkBridge [SIGINT; SIGTERM] [s] pc (S a) dr em.
Proof. intros [-> | ->]; reflexivity. Qed.

Lemma notify_full x pc a dr em s :
  s = SIGINT \/ s = SIGTERM ->
  notify s (mkBridge [SIGINT; SIGTERM] [x] pc a dr em)
  = mkBridge [SIGINT; SIGTERM] [x] pc (S a) (S dr) em.
Proof. intros [-> | ->]; reflexivity. Qed.

Lemma arrived_notify s br :
  notified br = [SIGINT; SIGTERM] ->
  s = SIGINT \/ s = SIGTERM ->
  arrived (notify s br) = S (arrived br).
Proof.
  intros Hn Hs. unfold notify. rewrite Hn.
  assert (Hw : existsb (Signal_eqb s) [SIGINT; SIGTERM] = true)
    by (destruct Hs as [-> | ->]; reflexivity).
  rewrite Hw. destruct (_ <? _); reflexivity.
Qed.

(** ** Steps on a state with its one bridge *)

Lemma exec_Deliver_one od ol cc br cs ds s :
  exec (Deliver s) (mkState od ol cc [br] cs ds)
  = mkState od ol cc [notify s br] cs ds.
Proof. reflexivity. Qed.

Lemma exec_BridgeRecv_one od ol cc nt s q a dr em cs ds :
  exec (BridgeRecv 0)
       (mkState od ol cc [mkBridge nt (s :: q) AtRecvSignal a dr em] cs ds)
  = mkState od ol cc [mkBridge nt q AtSendResult a dr em] cs ds.
Proof. reflexivity. Qed.

Lemma exec_BridgeRecv_idle od ol cc nt a dr em cs ds :
  exec (BridgeRecv 0)
       (mkState od ol cc [mkBridge nt [] AtRecvSignal a dr em] cs ds)
  = mkState od ol cc [mkBridge nt [] AtRecvSignal a dr em] cs ds.
Proof. reflexivity. Qed.

Lemma exec_WatcherRecv_one od ol nt q a dr em cs ds j dn :
  ds !! j = Some (mkDerived dn AtSelect []) ->
  exec (WatcherRecv j)
       (mkState od ol (Some 0) [mkBridge nt q AtSendResult a dr em] cs ds)
  = mkState od ol (Some 0) [mkBridge nt q AtRecvSignal a dr (S em)] cs
            (<[j := mkDerived dn AtCancel [ArmCancelCh]]> ds).
Proof.
  intros Hj. unfold exec. cbn [step]. unfold step_watcher_recv.
  cbn [derived cancelCh]. rewrite Hj. reflexivity.
Qed.

(** ** Several values in one process *)

Lemma Reach_exec a st : Reach st -> Reach (exec a st).
Proof.
  intros (n & sched & ->). exists n, (sched ++ [a]). now rewrite run_app.
Qed.

Lemma Reach_pexec ka p : Forall Reach p -> Forall Reach (pexec ka p).
Proof.
  intros H. destruct ka as [k a]. unfold pexec. cbn [fst snd].
  destruct a;
    try (apply Forall_alter; [exact H | intros x _; apply Reach_exec]).
  apply Forall_fmap. eapply Forall_impl; [exact H|].
  intros st Hst. exact (Reach_exec (Deliver s) st Hst).
Qed.

Lemma Reach_prun psched : forall p,
  Forall Reach p -> Forall Reach (prun psched p).
Proof.
  induction psched as [|ka psched IH]; intros p H; [exact H|].
  cbn [prun fold_left]. apply IH, Reach_pexec, H.
Qed.

Lemma Reach_pstart ns : Forall Reach (pstart ns).
Proof.
  unfold pstart. apply Forall_fmap, Forall_forall. intros n _.
  exists n, []. reflexivity.
Qed.

Lemma length_pexec ka p : length (pexec ka p) = length p.
Proof.
  destruct ka as [k a]. unfold pexec. cbn [fst snd].
  destruct a; first [apply length_alter | apply length_map].
Qed.

Lemma length_prun psched : forall p, length (prun psched p) = length p.
Proof.
  induction psched as [|ka psched IH]; intros p; [reflexivity|].
  cbn [prun fold_left]. fold (prun psched (pexec ka p)).
  now rewrite IH, length_pexec.
Qed.

Lemma registrations_le p : Forall Reach p -> registrations p <= length p.
Proof.
  unfold registrations. induction 1 as [|st p (n & sched & ->) _ IH];
    [reflexivity|].
  cbn [sum_list_with length].
  pose proof (OnceInv_bridges_le _ (OnceInv_run n sched)). lia.
Qed.

(** C4, as stated, fails: the guard is the [once] field of the
    [MirrorOptions] value, not of the process.  With two values in one
    process and one call of [CancelContext] on each, [makeCancelCh] runs
    twice: two registrations, two listener goroutines, and one SIGINT is
    queued on both channels. *)
Lemma two_options_register_twice :
  let p := prun two_options (pstart [1; 1]) in
  callers <$> p = [[Returned 0]; [Returned 0]]
  /\ registrations p = 2
  /\ (fun st => signalCh <$> bridges st) <$> pexec (0, Deliver SIGINT) p
     = [[[SIGINT]]; [[SIGINT]]].
Proof. vm_compute. repeat split. Qed.

(** C4, amended: in a process with any number of [MirrorOptions]
    values, however the statements of the calls of [CancelContext] on
    them are interleaved with each other, with signals and with the
    goroutines already started, on each value [makeCancelCh] has run at
    most once, and exactly once as soon as any caller on that value is
    back from [o.once.Do]; [o.cancelCh] then holds that one channel.
    The one registration is for SIGINT and SIGTERM, and a delivery of
    either is notified to it once.  The process has at most as many
    registrations as values.  Run one after the other, the calls on a
    value all return with one registration. *)
Theorem CancelContext_registers_once
    (ns : list nat) (psched : list (nat * Action)) k st :
  prun psched (pstart ns) !! k = Some st ->
  length (bridges st) <= 1
  /\ (forall i pc,
        callers st !! i = Some pc ->
        past_once pc = true ->
        length (bridges st) = 1 /\ cancelCh st = Some 0)
  /\ (forall b br,
        bridges st !! b = Some br ->
        b = 0
        /\ notified br = [SIGINT; SIGTERM]
        /\ forall s, s = SIGINT \/ s = SIGTERM ->
             arrived <$> bridges (exec (Deliver s) st) = [S (arrived br)])
  /\ registrations (prun psched (pstart ns)) <= length ns
  /\ (forall n,
        Forall returned (callers (run (sequential (S n)) (start (S n))))
        /\ length (bridges (run (sequential (S n)) (start (S n)))) = 1).
Proof.
  intros Hk.
  pose proof (Reach_prun psched _ (Reach_pstart ns)) as HR.
  destruct (Forall_lookup_1 _ _ _ _ HR Hk) as (n & sched & ->).
  pose proof (OnceInv_run n sched) as I.
  split; [exact (OnceInv_bridges_le _ I)|].
  split; [|split; [|split]].
  - destruct I as [Hm Hb Hd Hn Hc].
    intros i pc Hi Hp.
    pose proof (count_pos past_once _ _ _ Hi Hp) as Hpos.
    destruct (once_done (run sched (start n))) eqn:D.
    + specialize (Hd eq_refl).
      assert (Hl : length (bridges (run sched (start n))) = 1)
        by (rewrite Hb; simpl; lia).
      split; [exact Hl|]. rewrite Hc, Hl. reflexivity.
    + specialize (Hn eq_refl). lia.
  - intros b br Hb.
    destruct (OnceInv_the_bridge _ _ _ I Hb) as (-> & E & _).
    destruct (Forall_lookup_1 _ _ _ _ (BridgesInv_run n sched) Hb)
      as [Hn _ _].
    split; [reflexivity|]. split; [exact Hn|].
    intros s Hs. unfold exec. cbn [step set_bridges bridges].
    rewrite E. cbn. now rewrite arrived_notify.
  - pose proof (registrations_le _ HR) as H.
    rewrite length_prun in H. unfold pstart in H at 2.
    now rewrite length_map in H.
  - intros m. apply sequential_calls_return.
Qed.

(** Two values in one process, one call on each: the second value has
    its own registration, for the two signals. *)
Lemma CancelContext_registers_once_witness :
  (length (bridges (run (whole_call 0) (start 1))) = 1
   /\ cancelCh (run (whole_call 0) (start 1)) = Some 0)
  /\ notified (makeCancelCh [SIGINT; SIGTERM]) = [SIGINT; SIGTERM]
  /\ arrived <$> bridges (exec (Deliver SIGTERM)
                            (run (whole_call 0) (start 1)))
     = [S (arrived (makeCancelCh [SIGINT; SIGTERM]))]
  /\ registrations (prun two_options (pstart [1; 1])) <= length [1; 1].
Proof.
  assert (H : prun two_options (pstart [1; 1]) !! 1
              = Some (run (whole_call 0) (start 1)))
    by (vm_compute; reflexivity).
  pose proof (CancelContext_registers_once [1; 1] two_options 1 _ H)
    as (_ & H2 & H3 & H4 & _).
  destruct (H3 0 (makeCancelCh [SIGINT; SIGTERM])
              ltac:(vm_compute; reflexivity)) as (_ & Hn & Ha).
  split; [|split; [|split]].
  - apply (H2 0 (Returned 0)); vm_compute; reflexivity.
  - exact Hn.
  - apply Ha. right. reflexivity.
  - exact H4.
Defined.

(** ** The watcher's race *)

(** The two statements of a watcher, in a state where the once guard
    and the watchers' bookkeeping hold. *)
Lemma watcher_steps st j d :
  OnceInv st -> WatchersInv st -> derived st !! j = Some d ->
  (forall st',
     step (WatcherRecv j) st = Some st' <->
     watcher d = AtSelect
     /\ exists br,
          bridges st = [br]
          /\ bridge_pc br = AtSendResult
          /\ st' = set_bridges
                     [mkBridge (notified br) (signalCh br) AtRecvSignal
                               (arrived br) (dropped br) (S (emitted br))]
                     (set_derived
                        (<[j := mkDerived (ctx_done d) AtCancel
                                  [ArmCancelCh]]> (derived st)) st))
  /\ (forall st',
        step (WatcherStep j) st = Some st' <->
        (watcher d = AtSelect /\ ctx_done d = true
         /\ st' = set_derived
                    (<[j := mkDerived true Exited [ArmDone]]> (derived st))
                    st)
        \/ (watcher d = AtCancel
            /\ st' = set_derived
                       (<[j := mkDerived true Exited [ArmCancelCh]]>
                          (derived st)) st)).
Proof.
  intros I IW Hj.
  pose proof (Forall_lookup_1 _ _ _ _ IW Hj) as Hd. unfold DerivedInv in Hd.
  split; intros st'; cbn [step].
  - unfold step_watcher_recv. rewrite Hj. split.
    + destruct (cancelCh st) as [b|] eqn:Ec; [|discriminate].
      destruct (watcher d) eqn:W; try discriminate.
      destruct (bridges st !! b) as [br|] eqn:Eb; [|discriminate].
      destruct (bridge_pc br) eqn:Epc; [discriminate|].
      intros [= <-].
      destruct (OnceInv_the_bridge _ _ _ I Eb) as (-> & E & _).
      split; [reflexivity|]. exists br.
      split; [exact E|]. split; [exact Epc|].
      rewrite Hd, E. reflexivity.
    + intros (W & br & E & Epc & ->).
      assert (Eb : bridges st !! 0 = Some br) by now rewrite E.
      destruct (OnceInv_the_bridge _ _ _ I Eb) as (_ & _ & Ec).
      rewrite W in Hd. rewrite Ec, W, Eb, Epc, Hd, E. reflexivity.
  - unfold step_watcher. rewrite Hj. split.
    + destruct (watcher d) eqn:W; [| |discriminate].
      * destruct (ctx_done d) eqn:C; [|discriminate].
        intros [= <-]. left. rewrite Hd. auto.
      * intros [= <-]. right. rewrite Hd. auto.
    + intros [(W & C & ->) | (W & ->)]; rewrite W in Hd; rewrite W.
      * rewrite C, Hd. reflexivity.
      * rewrite Hd. reflexivity.
Qed.

(** C5, as stated, fails: after one call of [CancelContext] with no
    signal and no cancellation the watcher has taken no case of its
    [select], no goroutine can take a step, and no schedule of the
    goroutines alone changes that; the watcher waits for as long as the
    context is not completed. *)
Lemma watcher_may_take_no_arm :
  let st := run (sequential 1) (start 1) in
  callers st = [Returned 0]
  /\ derived st = [mkDerived false AtSelect []]
  /\ step (WatcherRecv 0) st = None
  /\ step (WatcherStep 0) st = None
  /\ (forall sched,
        forallb (fun a => negb (is_input a)) sched = true ->
        run sched st = st).
Proof.
  cbv zeta. split; [vm_compute; reflexivity|].
  split; [vm_compute; reflexivity|].
  split; [vm_compute; reflexivity|].
  split; [vm_compute; reflexivity|].
  assert (E : run (sequential 1) (start 1)
              = mkState true false (Some 0)
                  [mkBridge [SIGINT; SIGTERM] [] AtRecvSignal 0 0 0]
                  [Returned 0] [mkDerived false AtSelect []])
    by (vm_compute; reflexivity).
  rewrite E. clear E.
  induction sched as [|a sched IH]; [reflexivity|].
  cbn [forallb]. intros H. apply andb_prop in H as [Ha Hs].
  cbn [run fold_left].
  replace (exec a _) with
    (mkState true false (Some 0)
       [mkBridge [SIGINT; SIGTERM] [] AtRecvSignal 0 0 0]
       [Returned 0] [mkDerived false AtSelect []]); [exact (IH Hs)|].
  destruct a as [[|[|i]]|s|[|[|b]]|[|[|i]]|[|[|i]]|i];
    try discriminate; reflexivity.
Qed.

(** C5, amended: along every schedule the watcher of a derived context
    takes at most one case of its [select], and exactly one once it has
    left the [select].  It takes the receive from [o.cancelCh] exactly
    when it is in the [select] and the bridge is at its send: the event
    is consumed, and the watcher's next statement is [cancel()], which
    completes the context and ends the watcher.  It takes [ctx.Done()]
    exactly when it is in the [select] and the context is done already,
    and ends without touching anything else.  Otherwise it takes no
    step: in the [select] with the context not done and no event on
    offer it waits, and once it has ended it takes no further case.  A
    watcher that ended has seen its context done; and once the context
    is done (or the receive has happened) the watcher is never blocked:
    its next step ends it. *)
Theorem watcher_takes_one_arm (n : nat) (sched : list Action) j d :
  derived (run sched (start n)) !! j = Some d ->
  length (fired d) <= 1
  /\ (watcher d = AtSelect -> fired d = [])
  /\ (watcher d = AtCancel -> fired d = [ArmCancelCh])
  /\ (watcher d = Exited ->
      (fired d = [ArmCancelCh] \/ fired d = [ArmDone])
      /\ ctx_done d = true)
  /\ (ctx_done d = true \/ watcher d = AtCancel ->
      watcher d <> Exited ->
      exists st' d',
        step (WatcherStep j) (run sched (start n)) = Some st'
        /\ derived st' !! j = Some d'
        /\ watcher d' = Exited
        /\ ctx_done d' = true
        /\ length (fired d') = 1)
  /\ (forall st',
        step (WatcherRecv j) (run sched (start n)) = Some st' <->
        watcher d = AtSelect
        /\ exists br,
             bridges (run sched (start n)) = [br]
             /\ bridge_pc br = AtSendResult
             /\ st' = set_bridges
                        [mkBridge (notified br) (signalCh br) AtRecvSignal
                                  (arrived br) (dropped br)
                                  (S (emitted br))]
                        (set_derived
                           (<[j := mkDerived (ctx_done d) AtCancel
                                     [ArmCancelCh]]>
                              (derived (run sched (start n))))
                           (run sched (start n))))
  /\ (forall st',
        step (WatcherStep j) (run sched (start n)) = Some st' <->
        (watcher d = AtSelect /\ ctx_done d = true
         /\ st' = set_derived
                    (<[j := mkDerived true Exited [ArmDone]]>
                       (derived (run sched (start n))))
                    (run sched (start n)))
        \/ (watcher d = AtCancel
            /\ st' = set_derived
                       (<[j := mkDerived true Exited [ArmCancelCh]]>
                          (derived (run sched (start n))))
                       (run sched (start n)))).
Proof.
  intros Hj.
  pose proof (watcher_steps _ j d (OnceInv_run n sched)
                (WatchersInv_run n sched) Hj) as [HR HS].
  pose proof (Forall_lookup_1 _ _ _ _ (WatchersInv_run n sched) Hj) as I.
  pose proof (lookup_lt_Some _ _ _ Hj) as Hlt.
  unfold DerivedInv in I.
  assert (Hprogress :
    ctx_done d = true \/ watcher d = AtCancel ->
    watcher d <> Exited ->
    exists st' d',
      step (WatcherStep j) (run sched (start n)) = Some st'
      /\ derived st' !! j = Some d'
      /\ watcher d' = Exited
      /\ ctx_done d' = true
      /\ length (fired d') = 1).
  { intros Hc Hne. destruct (watcher d) eqn:W.
    - destruct Hc as [C|C]; [|discriminate].
      cbn [step]. unfold step_watcher. rewrite Hj, W, C, I.
      eexists _, _. split; [reflexivity|]. cbn [set_derived derived].
      rewrite list_lookup_insert_eq by exact Hlt. repeat split.
    - cbn [step]. unfold step_watcher. rewrite Hj, W, I.
      eexists _, _. split; [reflexivity|]. cbn [set_derived derived].
      rewrite list_lookup_insert_eq by exact Hlt. repeat split.
    - now contradiction Hne. }
  split; [|split; [|split; [|split; [|split; [exact Hprogress|
           split; [exact HR | exact HS]]]]]].
  - destruct (watcher d); [rewrite I| rewrite I|];
      [simpl; lia | simpl; lia |].
    destruct I as [[I|I] _]; rewrite I; simpl; lia.
  - intros W. now rewrite W in I.
  - intros W. now rewrite W in I.
  - intros W. now rewrite W in I.
Qed.

(** Two calls, then a signal taken by the bridge while the first caller
    cancels its context: the first watcher is free to leave through
    [ctx.Done()], and the second to take the event. *)
Lemma watcher_takes_one_arm_witness :
  (exists st' d',
     step (WatcherStep 0)
          (run (sequential 2 ++ [CancelCtx 0; Deliver SIGINT; BridgeRecv 0])
               (start 2))
       = Some st'
     /\ derived st' !! 0 = Some d'
     /\ watcher d' = Exited
     /\ ctx_done d' = true
     /\ length (fired d') = 1)
  /\ step (WatcherStep 1)
          (run (sequential 2 ++ [CancelCtx 0; Deliver SIGINT; BridgeRecv 0])
               (start 2))
     = None
  /\ exists st',
       step (WatcherRecv 1)
            (run (sequential 2 ++ [CancelCtx 0; Deliver SIGINT; BridgeRecv 0])
                 (start 2))
       = Some st'
       /\ bridges st'
          = [mkBridge [SIGINT; SIGTERM] [] AtRecvSignal 1 0 1]
       /\ derived st' !! 1
          = Some (mkDerived false AtCancel [ArmCancelCh]).
Proof.
  assert (H0 : derived (run (sequential 2 ++ [CancelCtx 0; Deliver SIGINT;
                                              BridgeRecv 0]) (start 2)) !! 0
               = Some (mkDerived true AtSelect []))
    by (vm_compute; reflexivity).
  assert (H1 : derived (run (sequential 2 ++ [CancelCtx 0; Deliver SIGINT;
                                              BridgeRecv 0]) (start 2)) !! 1
               = Some (mkDerived false AtSelect []))
    by (vm_compute; reflexivity).
  pose proof (watcher_takes_one_arm 2 _ 0 _ H0) as (_ & _ & _ & _ & P & _).
  pose proof (watcher_takes_one_arm 2 _ 1 _ H1)
    as (_ & _ & _ & _ & _ & R & S1).
  split; [|split].
  - apply P; [left; reflexivity | discriminate].
  - destruct (step (WatcherStep 1) _) as [st'|] eqn:E; [|reflexivity].
    destruct (proj1 (S1 st') eq_refl) as [(_ & C & _) | (W & _)];
      discriminate.
  - eexists. split.
    + apply (proj2 (R _)). split; [reflexivity|].
      exists (mkBridge [SIGINT; SIGTERM] [] AtSendResult 1 0 0).
      split; [vm_compute; reflexivity|]. split; reflexivity.
    + split; vm_compute; reflexivity.
Defined.

(** A signal reaches the watcher through the bridge: the watcher takes
    the receive and cancels its context. *)
Example signal_cancels_context :
  derived (run (sequential 1 ++ [Deliver SIGINT; BridgeRecv 0;
                                 WatcherRecv 0; WatcherStep 0]) (start 1))
  = [mkDerived true Exited [ArmCancelCh]].
Proof. vm_compute. reflexivity. Qed.

(** A signal that was not registered cancels nothing. *)
Example unwatched_signal_is_ignored :
  run (sequential 1 ++ [Deliver SIGHUP; BridgeRecv 0; WatcherRecv 0;
                        WatcherStep 0]) (start 1)
  = run (sequential 1) (start 1).
Proof. vm_compute. reflexivity. Qed.

(** ** Signals through the bridge *)

(** C8, as stated, fails: three watched signals arrive before any
    cancellation event is consumed; the first is at the send on
    [resultCh], the second sits in [signalCh], the third finds the buffer
    full and is lost.  Three watchers are ready to receive, and only two
    events come. *)
Lemma third_signal_is_dropped :
  let st1 := run (sequential 3 ++ [Deliver SIGINT; BridgeRecv 0;
                                   Deliver SIGINT; Deliver SIGTERM])
                 (start 3) in
  let st2 := run [WatcherRecv 0; BridgeRecv 0; WatcherRecv 1; BridgeRecv 0;
                  WatcherRecv 2; BridgeRecv 0; WatcherRecv 2] st1 in
  bridges st1 = [mkBridge [SIGINT; SIGTERM] [SIGINT] AtSendResult 3 1 0]
  /\ bridges st2 = [mkBridge [SIGINT; SIGTERM] [] AtRecvSignal 3 1 2]
  /\ watcher <$> derived st2 = [AtCancel; AtCancel; AtSelect].
Proof. vm_compute. repeat split. Qed.

(** A signal queued behind a pending event comes out as an event of its
    own; one more signal in between is lost. *)
Lemma queued_signal_is_emitted st b br s j1 j2 d1 d2 :
  OnceInv st -> BridgesInv st -> WatchersInv st ->
  bridges st !! b = Some br ->
  bridge_pc br = AtSendResult ->
  signalCh br = [] ->
  s = SIGINT \/ s = SIGTERM ->
  j1 <> j2 ->
  derived st !! j1 = Some d1 -> watcher d1 = AtSelect ->
  derived st !! j2 = Some d2 -> watcher d2 = AtSelect ->
  bridges (run [Deliver s; WatcherRecv j1; BridgeRecv b] st)
  = [mkBridge [SIGINT; SIGTERM] [] AtSendResult
              (S (arrived br)) (dropped br) (S (emitted br))]
  /\ bridges (run [Deliver s; WatcherRecv j1; BridgeRecv b; WatcherRecv j2]
                  st)
     = [mkBridge [SIGINT; SIGTERM] [] AtRecvSignal
                 (S (arrived br)) (dropped br) (S (S (emitted br)))]
  /\ derived (run [Deliver s; WatcherRecv j1; BridgeRecv b; WatcherRecv j2]
                  st)
     = <[j2 := mkDerived (ctx_done d2) AtCancel [ArmCancelCh]]>
         (<[j1 := mkDerived (ctx_done d1) AtCancel [ArmCancelCh]]>
            (derived st))
  /\ (forall s', s' = SIGINT \/ s' = SIGTERM ->
        bridges (run [Deliver s; Deliver s'; WatcherRecv j1; BridgeRecv b;
                      WatcherRecv j2; BridgeRecv b] st)
        = [mkBridge [SIGINT; SIGTERM] [] AtRecvSignal
                    (S (S (arrived br))) (S (dropped br))
                    (S (S (emitted br)))]).
Proof.
  intros I IB IW Hb Hpc Hq Hs Hne Hj1 W1 Hj2 W2.
  destruct (OnceInv_the_bridge _ _ _ I Hb) as (-> & E & Ec).
  destruct (Forall_lookup_1 _ _ _ _ IB Hb) as [Hn _ _].
  pose proof (Forall_lookup_1 _ _ _ _ IW Hj1) as F1.
  pose proof (Forall_lookup_1 _ _ _ _ IW Hj2) as F2.
  unfold DerivedInv in F1, F2. rewrite W1 in F1. rewrite W2 in F2.
  destruct st as [od ol cc bs cs ds]. cbn [bridges derived cancelCh] in *.
  subst bs cc.
  destruct br as [nt sc pc a dr em]. cbn in Hn, Hq, Hpc. subst nt sc pc.
  destruct d1 as [dn1 w1 f1]. cbn in W1, F1. subst w1 f1.
  destruct d2 as [dn2 w2 f2]. cbn in W2, F2. subst w2 f2.
  cbn [arrived dropped emitted ctx_done].
  assert (Hj2' : <[j1 := mkDerived dn1 AtCancel [ArmCancelCh]]> ds !! j2
                 = Some (mkDerived dn2 AtSelect []))
    by now rewrite list_lookup_insert_ne.
  cbn [run fold_left].
  split; [|split; [|split]].
  - rewrite exec_Deliver_one, notify_free by exact Hs.
    rewrite (exec_WatcherRecv_one _ _ _ _ _ _ _ _ _ _ _ Hj1).
    now rewrite exec_BridgeRecv_one.
  - rewrite exec_Deliver_one, notify_free by exact Hs.
    rewrite (exec_WatcherRecv_one _ _ _ _ _ _ _ _ _ _ _ Hj1).
    rewrite exec_BridgeRecv_one.
    now rewrite (exec_WatcherRecv_one _ _ _ _ _ _ _ _ _ _ _ Hj2').
  - rewrite exec_Deliver_one, notify_free by exact Hs.
    rewrite (exec_WatcherRecv_one _ _ _ _ _ _ _ _ _ _ _ Hj1).
    rewrite exec_BridgeRecv_one.
    now rewrite (exec_WatcherRecv_one _ _ _ _ _ _ _ _ _ _ _ Hj2').
  - intros s' Hs'.
    rewrite exec_Deliver_one, notify_free by exact Hs.
    rewrite exec_Deliver_one, notify_full by exact Hs'.
    rewrite (exec_WatcherRecv_one _ _ _ _ _ _ _ _ _ _ _ Hj1).
    rewrite exec_BridgeRecv_one.
    rewrite (exec_WatcherRecv_one _ _ _ _ _ _ _ _ _ _ _ Hj2').
    now rewrite exec_BridgeRecv_idle.
Qed.

(** C8, amended: a watched signal that arrives while the one-slot
    [signalCh] is free is queued; a watched signal that arrives while
    [signalCh] is full is dropped.  A signal queued behind a pending
    event becomes a cancellation event of its own once the pending one
    is consumed: the bridge goroutine takes it and offers it, and a
    second watcher receives it (no deduplication); a further signal that
    arrived in between is lost.  So along every schedule at most two
    signals are on their way through a bridge, and events received,
    signals on their way and signals dropped add up to the signals that
    arrived. *)
Theorem bridge_queues_one_signal (n : nat) (sched : list Action) b br :
  bridges (run sched (start n)) !! b = Some br ->
  length (signalCh br) <= 1
  /\ pending br <= 2
  /\ emitted br + pending br + dropped br = arrived br
  /\ (forall s, s = SIGINT \/ s = SIGTERM ->
       arrived (notify s br) = S (arrived br)
       /\ emitted (notify s br) = emitted br
       /\ (signalCh br = [] ->
           signalCh (notify s br) = [s]
           /\ dropped (notify s br) = dropped br
           /\ pending (notify s br) = S (pending br))
       /\ (signalCh br <> [] ->
           signalCh (notify s br) = signalCh br
           /\ dropped (notify s br) = S (dropped br)
           /\ pending (notify s br) = pending br))
  /\ (bridge_pc br = AtSendResult ->
      signalCh br = [] ->
      forall s j1 j2 d1 d2,
        s = SIGINT \/ s = SIGTERM ->
        j1 <> j2 ->
        derived (run sched (start n)) !! j1 = Some d1 ->
        watcher d1 = AtSelect ->
        derived (run sched (start n)) !! j2 = Some d2 ->
        watcher d2 = AtSelect ->
        bridges (run [Deliver s; WatcherRecv j1; BridgeRecv b]
                     (run sched (start n)))
        = [mkBridge [SIGINT; SIGTERM] [] AtSendResult
                    (S (arrived br)) (dropped br) (S (emitted br))]
        /\ bridges (run [Deliver s; WatcherRecv j1; BridgeRecv b;
                         WatcherRecv j2] (run sched (start n)))
           = [mkBridge [SIGINT; SIGTERM] [] AtRecvSignal
                       (S (arrived br)) (dropped br) (S (S (emitted br)))]
        /\ derived (run [Deliver s; WatcherRecv j1; BridgeRecv b;
                         WatcherRecv j2] (run sched (start n)))
           = <[j2 := mkDerived (ctx_done d2) AtCancel [ArmCancelCh]]>
               (<[j1 := mkDerived (ctx_done d1) AtCancel [ArmCancelCh]]>
                  (derived (run sched (start n))))
        /\ (forall s', s' = SIGINT \/ s' = SIGTERM ->
              bridges (run [Deliver s; Deliver s'; WatcherRecv j1;
                            BridgeRecv b; WatcherRecv j2; BridgeRecv b]
                           (run sched (start n)))
              = [mkBridge [SIGINT; SIGTERM] [] AtRecvSignal
                          (S (S (arrived br))) (S (dropped br))
                          (S (S (emitted br)))])).
Proof.
  intros Hb.
  destruct (Forall_lookup_1 _ _ _ _ (BridgesInv_run n sched) Hb)
    as [Hn Hc Hf].
  unfold signalCh_cap in Hc.
  split; [exact Hc|]. split.
  { unfold pending. destruct (bridge_pc br); lia. }
  split; [exact Hf|]. split.
  - intros s Hs. unfold notify. rewrite Hn.
    assert (Hw : existsb (Signal_eqb s) [SIGINT; SIGTERM] = true)
      by (destruct Hs as [-> | ->]; reflexivity).
    rewrite Hw. unfold pending.
    destruct (signalCh br) as [|x q] eqn:Q; cbn.
    + split; [reflexivity|]. split; [reflexivity|]. split.
      * intros _. repeat split.
      * intros Hne. now contradiction Hne.
    + split; [reflexivity|]. split; [reflexivity|]. split.
      * discriminate.
      * intros _. repeat split.
  - intros Hpc Hq s j1 j2 d1 d2 Hs Hne Hj1 W1 Hj2 W2.
    exact (queued_signal_is_emitted _ b br s j1 j2 d1 d2
             (OnceInv_run n sched) (BridgesInv_run n sched)
             (WatchersInv_run n sched) Hb Hpc Hq Hs Hne Hj1 W1 Hj2 W2).
Qed.

(** Two calls, one signal taken by the bridge and pending at the send:
    the next signal is queued and reaches the second watcher as an event
    of its own; the one after it is dropped. *)
Lemma bridge_queues_one_signal_witness :
  (signalCh (notify SIGTERM pending_bridge) = [SIGTERM]
   /\ dropped (notify SIGTERM pending_bridge) = 0
   /\ pending (notify SIGTERM pending_bridge) = 2)
  /\ (signalCh (notify SIGINT (notify SIGTERM pending_bridge)) = [SIGTERM]
      /\ dropped (notify SIGINT (notify SIGTERM pending_bridge)) = 1
      /\ pending (notify SIGINT (notify SIGTERM pending_bridge)) = 2)
  /\ bridges (run [Deliver SIGTERM; WatcherRecv 0; BridgeRecv 0;
                   WatcherRecv 1]
                  (run (sequential 2 ++ [Deliver SIGINT; BridgeRecv 0])
                       (start 2)))
     = [mkBridge [SIGINT; SIGTERM] [] AtRecvSignal
                 (S (arrived pending_bridge)) (dropped pending_bridge)
                 (S (S (emitted pending_bridge)))]
  /\ bridges (run [Deliver SIGTERM; Deliver SIGINT; WatcherRecv 0;
                   BridgeRecv 0; WatcherRecv 1; BridgeRecv 0]
                  (run (sequential 2 ++ [Deliver SIGINT; BridgeRecv 0])
                       (start 2)))
     = [mkBridge [SIGINT; SIGTERM] [] AtRecvSignal
                 (S (S (arrived pending_bridge)))
                 (S (dropped pending_bridge))
                 (S (S (emitted pending_bridge)))].
Proof.
  assert (H1 : bridges (run (sequential 2 ++ [Deliver SIGINT; BridgeRecv 0])
                            (start 2)) !! 0
               = Some pending_bridge) by (vm_compute; reflexivity).
  assert (H2 : bridges (run (sequential 2 ++ [Deliver SIGINT; BridgeRecv 0;
                                              Deliver SIGTERM])
                            (start 2)) !! 0
               = Some (notify SIGTERM pending_bridge))
    by (vm_compute; reflexivity).
  pose proof (bridge_queues_one_signal 2 _ 0 _ H1) as (_ & _ & _ & A & B).
  pose proof (bridge_queues_one_signal 2 _ 0 _ H2) as (_ & _ & _ & A' & _).
  destruct (B eq_refl eq_refl SIGTERM 0 1
              (mkDerived false AtSelect []) (mkDerived false AtSelect [])
              (or_intror eq_refl) ltac:(discriminate)
              ltac:(vm_compute; reflexivity) eq_refl
              ltac:(vm_compute; reflexivity) eq_refl)
    as (_ & B2 & _ & B4).
  split; [|split; [|split]].
  - apply (A SIGTERM); [right|]; reflexivity.
  - apply (A' SIGINT); [left; reflexivity | vm_compute; discriminate].
  - exact B2.
  - apply B4. left. reflexivity.
Defined.

(** Two signals, each taken by the bridge and received in turn, give two
    events: nothing merges them. *)
Example two_signals_two_events :
  emitted <$> bridges
    (run (sequential 2 ++ [Deliver SIGINT; BridgeRecv 0; Deliver SIGINT;
                           WatcherRecv 0; BridgeRecv 0; WatcherRecv 1])
         (start 2))
  = [2].
Proof. vm_compute. reflexivity. Qed.


End CancelFacts.

(** * Further properties of the logging hooks *)

Module LoggingMore.
Import Logging LoggingFacts.

(** ** Where log lines go after setup *)

(** X7: after setup the primary logger (klog) writes to the very fan-out
    the options' output stream is rebound to, so its lines reach what the
    former output stream reached and then the log file; the secondary
    logger's own output is the discarding writer, which reaches
    nothing. *)
Theorem setup_routes_loggers env o w o' w' :
  LogfilePreRun env o w = Ok o' w' ->
  klog_out w' = Some (Out (streams o'))
  /\ targets (Out (streams o'))
     = targets (Out (streams o)) ++ [FileWriter (length (files w))]
  /\ logrus_out w' = Some Discard
  /\ targets Discard = [].
Proof.
  intros H.
  apply LogfilePreRun_Ok in H as (_ & -> & _ & Hk & Hl & _).
  cbn [streams Out]. rewrite Hk, Hl, targets_io_MultiWriter. cbn.
  rewrite ?app_nil_r. repeat split.
Qed.

Lemma setup_routes_loggers_witness :
  klog_out (after_setup 1).2 = Some (Out (streams (after_setup 1).1))
  /\ targets (Out (streams (after_setup 1).1))
     = [Stream "stdout"; FileWriter 0]
  /\ logrus_out (after_setup 1).2 = Some Discard
  /\ targets Discard = [].
Proof.
  exact (setup_routes_loggers env_ok (options0 1) world0
           (after_setup 1).1 (after_setup 1).2
           ltac:(vm_compute; reflexivity)).
Defined.

Lemma file_targets_fan_out e n :
  file_targets (io_MultiWriter [e; FileWriter n]) = file_targets e ++ [n].
Proof.
  unfold file_targets. rewrite targets_io_MultiWriter. cbn.
  rewrite omap_app. cbn. reflexivity.
Qed.



(** ** The stored closure *)

(** What the closure does on a log file that is open: flush, hook
    cleanup, close; the close marks the file closed, and its error, if
    any, ends the process. *)
Lemma cleanup_of_open env fd w f :
  files w !! fd = Some f ->
  f_closed f = false ->
  cleanup_of env fd w
  = let w' := mkWorld (klog_flags w) (klog_out w) (logrus_out w)
                (logrus_level w) (logrus_hooks w)
                (<[fd := mkFile (f_name f) (f_flag f) (f_perm f) true]>
                   (files w))
                (trace w ++ [EvKlogFlush; EvLogrusCleanup fd; EvClose fd]) in
    match close_err env with
    | Some e => Fatal e w'
    | None => Ok tt w'
    end.
Proof.
  intros Hf Hc.
  unfold cleanup_of, bind, klog_Flush, file_Close.
  cbn [emit files trace klog_flags klog_out logrus_out logrus_level
       logrus_hooks].
  rewrite Hf, Hc. cbn [files].
  destruct (close_err env); cbn; rewrite <- !app_assoc; reflexivity.
Qed.

Lemma setup_stores_cleanup env o w o' w' :
  LogfilePreRun env o w = Ok o' w' ->
  logfileCleanup o' = Some (cleanup_of env (length (files w)))
  /\ files w' !! length (files w)
     = Some (mkFile ".oc-mirror.log" (Z.lor (Z.lor O_CREATE O_APPEND) O_RDWR)
               perm0600 false)
  /\ length (files w') = S (length (files w)).
Proof.
  intros H.
  apply LogfilePreRun_Ok in H as (_ & -> & _ & _ & _ & _ & _ & Hf & _).
  rewrite Hf, length_app, lookup_app_r, Nat.sub_diag by reflexivity.
  cbn. repeat split. lia.
Qed.

(** X9: when closing the log file fails at teardown, the process ends
    with that error, after the primary logger was flushed and the file
    hook cleaned up; the three steps of the closure run in that order
    and none is skipped. *)
Theorem teardown_close_failure_is_fatal env o w o1 w1 e :
  LogfilePreRun env o w = Ok o1 w1 ->
  close_err env = Some e ->
  exists w2,
    LogfilePostRun o1 w1 = Fatal e w2
    /\ trace w2 = trace w1 ++ [EvKlogFlush;
                               EvLogrusCleanup (length (files w));
                               EvClose (length (files w))].
Proof.
  intros H He.
  apply setup_stores_cleanup in H as (Hc & Hf & _).
  unfold LogfilePostRun. rewrite Hc.
  rewrite (cleanup_of_open env _ w1 _ Hf eq_refl), He. cbn.
  eexists. split; reflexivity.
Qed.

Lemma teardown_close_failure_is_fatal_witness :
  exists w2,
    LogfilePostRun
      (match LogfilePreRun env_bad_close (options0 0) world0 with
       | Ok o1 _ => o1 | Fatal _ _ => options0 0 end)
      (world_of (LogfilePreRun env_bad_close (options0 0) world0))
    = Fatal "close .oc-mirror.log: input/output error" w2
    /\ trace w2
       = trace (world_of (LogfilePreRun env_bad_close (options0 0) world0))
         ++ [EvKlogFlush; EvLogrusCleanup 0; EvClose 0].
Proof.
  refine (teardown_close_failure_is_fatal env_bad_close (options0 0) world0
            _ _ _ _ _).
  - vm_compute. reflexivity.
  - reflexivity.
Defined.

(** X10: teardown does not rebind the streams.  After setup the log
    file is open; after a teardown that closes it, the options' output
    and error streams, which [LogfilePostRun] does not assign, still fan
    out to that file, now closed. *)
Theorem teardown_keeps_routing env o w o1 w1 :
  LogfilePreRun env o w = Ok o1 w1 ->
  close_err env = None ->
  exists w2,
    LogfilePostRun o1 w1 = Ok tt w2
    /\ f_closed <$> files w1 !! length (files w) = Some false
    /\ f_closed <$> files w2 !! length (files w) = Some true
    /\ (length (files w) ∈ file_targets (Out (streams o1)))
    /\ (length (files w) ∈ file_targets (ErrOut (streams o1))).
Proof.
  intros H Hce.
  pose proof (setup_stores_cleanup _ _ _ _ _ H) as (Hc & Hf & Hlen).
  pose proof (LogfilePreRun_Ok _ _ _ _ _ H)
    as (_ & Ho & _ & Hk & _).
  unfold LogfilePostRun. rewrite Hc.
  rewrite (cleanup_of_open env _ w1 _ Hf eq_refl), Hce. cbn zeta.
  eexists. split; [reflexivity|].
  cbn [files].
  rewrite list_lookup_insert_eq by lia.
  rewrite Hf, Ho. cbn [streams Out ErrOut f_closed fmap option_fmap option_map].
  rewrite !file_targets_fan_out.
  repeat split; apply elem_of_app; right;
    apply list_elem_of_singleton; reflexivity.
Qed.

Lemma teardown_keeps_routing_witness :
  exists w2,
    LogfilePostRun (after_setup 0).1 (after_setup 0).2 = Ok tt w2
    /\ f_closed <$> files (after_setup 0).2 !! 0%nat = Some false
    /\ f_closed <$> files w2 !! 0%nat = Some true
    /\ (0%nat ∈ file_targets (Out (streams (after_setup 0).1)))
    /\ (0%nat ∈ file_targets (ErrOut (streams (after_setup 0).1))).
Proof.
  exact (teardown_keeps_routing env_ok (options0 0) world0
           (after_setup 0).1 (after_setup 0).2
           ltac:(vm_compute; reflexivity) eq_refl).
Defined.

(** ** Setup called again *)



End LoggingMore.



(** * Further properties of the cancellation machinery *)

Module CancelMore.
Import Cancel CancelFacts.

Local Open Scope nat_scope.

(** ** Signals that were not registered *)

Lemma notify_unwatched s b :
  notified b = [SIGINT; SIGTERM] -> is_watched s = false -> notify s b = b.
Proof.
  intros Hn Hs. unfold notify. rewrite Hn.
  unfold is_watched in Hs. now rewrite Hs.
Qed.

(** X1: in every reachable state the delivery of a signal other than
    SIGINT and SIGTERM changes nothing: no bridge queues it, no context
    is cancelled. *)
Theorem unwatched_signal_changes_nothing (n : nat) (sched : list Action) s :
  is_watched s = false ->
  exec (Deliver s) (run sched (start n)) = run sched (start n).
Proof.
  intros Hs. unfold exec. cbn [step].
  pose proof (BridgesInv_run n sched) as I. unfold BridgesInv in I.
  assert (Hm : map (notify s) (bridges (run sched (start n)))
               = bridges (run sched (start n))).
  { induction I as [|b l Hb _ IH]; [reflexivity|].
    cbn [map]. rewrite IH, (notify_unwatched s b); [reflexivity| |exact Hs].
    apply Hb. }
  rewrite Hm. destruct (run sched (start n)). reflexivity.
Qed.

Lemma unwatched_signal_changes_nothing_witness :
  exec (Deliver SIGHUP)
       (run (racing_calls ++ [Deliver SIGINT; BridgeRecv 0]) (start 3))
  = run (racing_calls ++ [Deliver SIGINT; BridgeRecv 0]) (start 3).
Proof.
  apply (unwatched_signal_changes_nothing 3
           (racing_calls ++ [Deliver SIGINT; BridgeRecv 0]) SIGHUP).
  reflexivity.
Defined.

(** ** Signals and the contexts they cancel *)

Lemma sum_insert {A} (f : A -> nat) (l : list A) i x y :
  l !! i = Some x ->
  sum_list_with f (<[i := y]> l) + f x = sum_list_with f l + f y.
Proof.
  revert i. induction l as [|z l IH]; intros [|i] H; simplify_eq/=.
  - lia.
  - specialize (IH _ H). lia.
Qed.

Lemma sum_notify_emitted s l :
  sum_list_with emitted (map (notify s) l) = sum_list_with emitted l.
Proof.
  induction l as [|b l IH]; [reflexivity|]. cbn [map sum_list_with].
  rewrite IH. f_equal. unfold notify.
  destruct (existsb _ _); [|reflexivity].
  destruct (_ <? _); reflexivity.
Qed.

Lemma bridges_at_most_one n sched :
  length (bridges (run sched (start n))) <= 1.
Proof.
  destruct (OnceInv_run n sched) as [Hm Hb Hd _ _].
  destruct (once_done (run sched (start n))).
  - specialize (Hd eq_refl). rewrite Hb. simpl. lia.
  - rewrite Hb. destruct (once_locked (run sched (start n)));
      simpl in *; lia.
Qed.

Lemma arm_cancels_keep d c w :
  arm_cancels (mkDerived c w (fired d)) = arm_cancels d.
Proof. reflexivity. Qed.

Lemma arm_cancels_fire d c w a :
  arm_cancels (mkDerived c w (fired d ++ [a]))
  = arm_cancels d + (if is_cancel_arm a then 1 else 0).
Proof.
  unfold arm_cancels. cbn [fired].
  rewrite List.filter_app, length_app. cbn.
  destruct (is_cancel_arm a); reflexivity.
Qed.

(** Every receive a watcher took was a value a bridge handed over. *)
Lemma cancels_are_events_step a st st' :
  signal_cancels st = events st -> step a st = Some st' ->
  signal_cancels st' = events st'.
Proof.
  unfold signal_cancels, events. intros I.
  destruct a as [i|s|b|j|j|j]; cbn [step].
  - unfold step_call.
    destruct (callers st !! i) as [pc|]; [|discriminate].
    destruct pc; try destruct (once_locked st); intros H; simplify_eq;
      cbn; rewrite ?sum_list_with_app; cbn; lia.
  - intros [= <-]. cbn. now rewrite sum_notify_emitted.
  - unfold step_bridge. intros H.
    destruct (bridges st !! b) as [br|] eqn:E; [|discriminate].
    destruct (bridge_pc br), (signalCh br); simplify_eq. cbn.
    pose proof (sum_insert emitted _ _ _
                  (mkBridge (notified br) l AtSendResult (arrived br)
                     (dropped br) (emitted br)) E) as Hs.
    cbn in Hs. lia.
  - unfold step_watcher_recv. intros H.
    destruct (derived st !! j) as [d|] eqn:E; [|discriminate].
    destruct (cancelCh st) as [b|]; [|discriminate].
    destruct (watcher d); try discriminate.
    destruct (bridges st !! b) as [br|] eqn:Eb; [|discriminate].
    destruct (bridge_pc br); simplify_eq. cbn.
    pose proof (sum_insert emitted _ _ _
                  (mkBridge (notified br) (signalCh br) AtRecvSignal
                     (arrived br) (dropped br) (S (emitted br))) Eb) as Hs.
    pose proof (sum_insert arm_cancels _ _ _
                  (mkDerived (ctx_done d) AtCancel
                     (fired d ++ [ArmCancelCh])) E) as Hd.
    rewrite arm_cancels_fire in Hd. cbn in Hs, Hd. lia.
  - unfold step_watcher. intros H.
    destruct (derived st !! j) as [d|] eqn:E; [|discriminate].
    destruct (watcher d); [destruct (ctx_done d)|..]; simplify_eq; cbn.
    + pose proof (sum_insert arm_cancels _ _ _
                    (mkDerived true Exited (fired d ++ [ArmDone])) E) as Hd.
      rewrite arm_cancels_fire in Hd. cbn in Hd. lia.
    + pose proof (sum_insert arm_cancels _ _ _
                    (mkDerived true Exited (fired d)) E) as Hd.
      rewrite arm_cancels_keep in Hd. lia.
  - unfold step_cancel. intros H.
    destruct (derived st !! j) as [d|] eqn:E; simplify_eq. cbn.
    pose proof (sum_insert arm_cancels _ _ _
                  (mkDerived true (watcher d) (fired d)) E) as Hd.
    rewrite arm_cancels_keep in Hd. lia.
Qed.

Lemma events_le_arrivals l :
  Forall BridgeInv l -> sum_list_with emitted l <= sum_list_with arrived l.
Proof.
  induction 1 as [|b l [_ _ Hf] _ IH]; cbn; lia.
Qed.

Lemma arrivals_notify s l :
  Forall BridgeInv l ->
  sum_list_with arrived (map (notify s) l)
  <= sum_list_with arrived l + (if is_watched s then length l else 0).
Proof.
  induction 1 as [|b l [Hn _ _] _ IH]; cbn [map sum_list_with length].
  - destruct (is_watched s); lia.
  - unfold notify at 1. rewrite Hn. fold (is_watched s).
    destruct (is_watched s); [|lia].
    destruct (_ <? _); cbn [arrived]; lia.
Qed.

(** A step adds to the signals the bridges were notified of only when
    it delivers a watched signal, and then one per bridge. *)
Lemma arrivals_exec a st :
  BridgesInv st ->
  arrivals (exec a st)
  <= arrivals st + (if is_watched_deliver a then length (bridges st) else 0).
Proof.
  unfold arrivals, exec, BridgesInv. intros I.
  destruct a as [i|s|b|j|j|j]; cbn [step is_watched_deliver].
  - unfold step_call.
    destruct (callers st !! i) as [pc|]; [|lia].
    destruct pc; try destruct (once_locked st); cbn;
      rewrite ?sum_list_with_app; cbn; lia.
  - cbn. now apply arrivals_notify.
  - unfold step_bridge.
    destruct (bridges st !! b) as [br|] eqn:E; [|lia].
    destruct (bridge_pc br), (signalCh br); try lia. cbn.
    pose proof (sum_insert arrived _ _ _
                  (mkBridge (notified br) l AtSendResult (arrived br)
                     (dropped br) (emitted br)) E) as Hs.
    cbn in Hs. lia.
  - unfold step_watcher_recv.
    destruct (derived st !! j) as [d|]; [|lia].
    destruct (cancelCh st) as [b|]; [|lia].
    destruct (watcher d); try lia.
    destruct (bridges st !! b) as [br|] eqn:Eb; [|lia].
    destruct (bridge_pc br); try lia. cbn.
    pose proof (sum_insert arrived _ _ _
                  (mkBridge (notified br) (signalCh br) AtRecvSignal
                     (arrived br) (dropped br) (S (emitted br))) Eb) as Hs.
    cbn in Hs. lia.
  - unfold step_watcher.
    destruct (derived st !! j) as [d|]; [|lia].
    destruct (watcher d); [destruct (ctx_done d)|..]; cbn; lia.
  - unfold step_cancel.
    destruct (derived st !! j) as [d|]; cbn; lia.
Qed.

Lemma arrivals_le_delivers n sched :
  arrivals (run sched (start n)) <= watched_delivers sched.
Proof.
  induction sched as [|a sched IH] using rev_ind; [reflexivity|].
  rewrite run_app. cbn [run fold_left].
  pose proof (arrivals_exec a _ (BridgesInv_run n sched)) as Ha.
  pose proof (bridges_at_most_one n sched) as H1.
  unfold watched_delivers in *.
  rewrite List.filter_app, length_app. cbn [List.filter].
  destruct (is_watched_deliver a); cbn [length]; lia.
Qed.

(** X2: along every schedule the contexts cancelled through the
    receive from [o.cancelCh] are as many as the values the bridge
    handed over, which are at most the signals the bridge was notified
    of, which are at most the watched signals the schedule delivered: a
    signal cancels at most one derived context, and none is cancelled
    this way without a signal. *)
Theorem signal_cancels_at_most_one_context (n : nat) (sched : list Action) :
  signal_cancels (run sched (start n)) = events (run sched (start n))
  /\ events (run sched (start n)) <= arrivals (run sched (start n))
  /\ arrivals (run sched (start n)) <= watched_delivers sched.
Proof.
  split; [|split].
  - apply (run_invariant (fun st => signal_cancels st = events st));
      [apply cancels_are_events_step | reflexivity].
  - apply events_le_arrivals, BridgesInv_run.
  - apply arrivals_le_delivers.
Qed.

(** Two contexts wait and one signal comes: one watcher gets it, the
    other stays in its [select]. *)
Example one_signal_one_context :
  let st := run (sequential 2 ++ [Deliver SIGTERM; BridgeRecv 0;
                                  WatcherRecv 1; WatcherStep 1;
                                  WatcherRecv 0; BridgeRecv 0;
                                  WatcherRecv 0])
                (start 2) in
  derived st = [mkDerived false AtSelect [];
                mkDerived true Exited [ArmCancelCh]]
  /\ signal_cancels st = 1.
Proof. vm_compute. split; reflexivity. Qed.

(** ** Callers make progress *)

Lemma count_exists p (l : list CallPc) :
  0 < count p l -> exists i x, l !! i = Some x /\ p x = true.
Proof.
  induction l as [|z l IH]; rewrite ?count_cons.
  - unfold count. simpl. lia.
  - destruct (p z) eqn:Hz.
    + intros _. exists 0, z. auto.
    + simpl. intros H. destruct (IH H) as (i & x & Hi & Hx).
      exists (S i), x. auto.
Qed.

Lemma step_call_enabled i st pc :
  callers st !! i = Some pc ->
  has_returned pc = false ->
  pc <> AtLock \/ once_locked st = false ->
  exists st', step (Call i) st = Some st'.
Proof.
  intros Hi Hr Hl. cbn [step]. unfold step_call. rewrite Hi.
  destruct pc; try discriminate; eauto.
  destruct Hl as [Hl | ->]; [now contradiction Hl | eauto].
Qed.

(** X3: the callers of [CancelContext] never deadlock: in every
    reachable state in which some call has not returned, some caller can
    take its next statement (a caller waiting at [Lock] waits for one
    that holds the mutex and is free to go on); and each statement a
    caller takes brings the calls closer to their return, seven
    statements per call at most. *)
Theorem callers_never_deadlock (n : nat) (sched : list Action) :
  (forall i pc,
     callers (run sched (start n)) !! i = Some pc ->
     has_returned pc = false ->
     exists k st', step (Call k) (run sched (start n)) = Some st')
  /\ (forall k st',
        step (Call k) (run sched (start n)) = Some st' ->
        sum_list_with steps_left (callers st')
        < sum_list_with steps_left (callers (run sched (start n))))
  /\ sum_list_with steps_left (callers (run sched (start n))) <= 7 * n.
Proof.
  split; [|split].
  - intros i pc Hi Hr.
    destruct (OnceInv_run n sched) as [Hm _ _ _ _].
    destruct (once_locked (run sched (start n))) eqn:L.
    + assert (Hpc : pc = AtLock \/ pc <> AtLock)
        by (destruct pc; (now left) || (right; discriminate)).
      destruct Hpc as [->|Hne].
      * cbn [b2n] in Hm.
        assert (Hc : 0 < count at_recheck (callers (run sched (start n)))
                     \/ 0 < count at_init (callers (run sched (start n)))
                     \/ 0 < count at_store (callers (run sched (start n)))
                     \/ 0 < count at_unlock (callers (run sched (start n))))
          by lia.
        destruct Hc as [Hc|[Hc|[Hc|Hc]]];
          apply count_exists in Hc as (k & x & Hk & Hx);
          exists k; apply (step_call_enabled k _ x Hk);
          destruct x; try discriminate; auto; left; discriminate.
      * exists i. apply (step_call_enabled i _ pc Hi Hr). now left.
    + exists i. apply (step_call_enabled i _ pc Hi Hr). now right.
  - intros k st'. cbn [step]. unfold step_call.
    destruct (callers (run sched (start n)) !! k) as [pc|] eqn:E;
      [|discriminate].
    destruct pc; try discriminate;
      try destruct (once_locked (run sched (start n)));
      try destruct (once_done (run sched (start n)));
      try discriminate; intros [= <-]; cbn [set_callers callers];
      match goal with
      | |- context [<[_ := ?y]> _] =>
          pose proof (sum_insert steps_left _ _ _ y E) as Hs
      end; cbn [steps_left] in Hs; lia.
  - apply (run_invariant
             (fun st => sum_list_with steps_left (callers st) <= 7 * n)).
    + intros a st st' I Hst.
      destruct a as [k|s|b|j|j|j]; cbn [step] in Hst.
      * unfold step_call in Hst.
        destruct (callers st !! k) as [pc|] eqn:E; [|discriminate].
        destruct pc; try discriminate;
          try destruct (once_locked st); try destruct (once_done st);
          try discriminate; injection Hst as <-; cbn [set_callers callers];
          match goal with
          | |- context [<[_ := ?y]> _] =>
              pose proof (sum_insert steps_left _ _ _ y E) as Hs
          end; cbn [steps_left] in Hs; lia.
      * injection Hst as <-. exact I.
      * unfold step_bridge in Hst.
        destruct (bridges st !! b) as [br|]; [|discriminate].
        destruct (bridge_pc br), (signalCh br); simplify_eq. exact I.
      * unfold step_watcher_recv in Hst.
        destruct (derived st !! j) as [d|]; [|discriminate].
        destruct (cancelCh st) as [b|]; [|discriminate].
        destruct (watcher d); try discriminate.
        destruct (bridges st !! b) as [br|]; [|discriminate].
        destruct (bridge_pc br); simplify_eq. exact I.
      * unfold step_watcher in Hst.
        destruct (derived st !! j) as [d|]; [|discriminate].
        destruct (watcher d); [destruct (ctx_done d)|..]; simplify_eq;
          exact I.
      * unfold step_cancel in Hst.
        destruct (derived st !! j) as [d|]; simplify_eq. exact I.
    + cbn. induction n as [|n IH]; cbn in *; lia.
Qed.

(** Caller 1 holds the mutex and caller 0 waits at [Lock]: caller 1 can
    go on. *)
Lemma callers_never_deadlock_witness :
  exists k st',
    step (Call k) (run [Call 0; Call 1; Call 1] (start 2)) = Some st'.
Proof.
  apply (proj1 (callers_never_deadlock 2 [Call 0; Call 1; Call 1])
           0 AtLock); vm_compute; reflexivity.
Defined.

(** ** What a step leaves of a derived context *)

Lemma derived_step a st st' j d :
  step a st = Some st' ->
  derived st !! j = Some d ->
  exists d',
    derived st' !! j = Some d'
    /\ (ctx_done d = true -> ctx_done d' = true)
    /\ (watcher d = Exited -> watcher d' = Exited /\ fired d' = fired d).
Proof.
  intros Hst Hj.
  pose proof (lookup_lt_Some _ _ _ Hj) as Hlt.
  destruct a as [i|s|b|k|k|k]; cbn [step] in Hst.
  - unfold step_call in Hst.
    destruct (callers st !! i) as [pc|]; [|discriminate].
    destruct pc; try destruct (once_locked st); simplify_eq;
      cbn; try (exists d; now auto).
    all: exists d; split; [now apply lookup_app_l_Some | auto].
  - injection Hst as <-. exists d. auto.
  - unfold step_bridge in Hst.
    destruct (bridges st !! b) as [br|]; [|discriminate].
    destruct (bridge_pc br), (signalCh br); simplify_eq. exists d. auto.
  - unfold step_watcher_recv in Hst.
    destruct (derived st !! k) as [dk|] eqn:Ek; [|discriminate].
    destruct (cancelCh st) as [b|]; [|discriminate].
    destruct (watcher dk) eqn:W; try discriminate.
    destruct (bridges st !! b) as [br|]; [|discriminate].
    destruct (bridge_pc br); simplify_eq. cbn.
    destruct (decide (k = j)) as [->|Hne].
    + rewrite list_lookup_insert_eq by exact Hlt. simplify_eq.
      eexists. split; [reflexivity|]. cbn. split; [auto|].
      rewrite W. discriminate.
    + rewrite list_lookup_insert_ne by exact Hne. exists d. auto.
  - unfold step_watcher in Hst.
    destruct (derived st !! k) as [dk|] eqn:Ek; [|discriminate].
    destruct (decide (k = j)) as [->|Hne].
    + rewrite Hj in Ek. injection Ek as <-.
      destruct (watcher d) eqn:W; [destruct (ctx_done d)|..]; simplify_eq;
        cbn; rewrite list_lookup_insert_eq by exact Hlt;
        eexists; (split; [reflexivity|]); cbn; split; auto; discriminate.
    + destruct (watcher dk); [destruct (ctx_done dk)|..]; simplify_eq;
        cbn; rewrite list_lookup_insert_ne by exact Hne; exists d; auto.
  - unfold step_cancel in Hst.
    destruct (derived st !! k) as [dk|] eqn:Ek; simplify_eq. cbn.
    destruct (decide (k = j)) as [->|Hne].
    + rewrite list_lookup_insert_eq by exact Hlt. simplify_eq.
      eexists. split; [reflexivity|]. cbn. auto.
    + rewrite list_lookup_insert_ne by exact Hne. exists d. auto.
Qed.

(** X4: cancellation is for good.  From any state on, whatever is
    scheduled next, a derived context stays where it is, a context that
    is done stays done, and a watcher that finished stays finished with
    the select case it took. *)
Theorem cancellation_is_irrevocable (sched : list Action) :
  forall st j d,
    derived st !! j = Some d ->
    exists d',
      derived (run sched st) !! j = Some d'
      /\ (ctx_done d = true -> ctx_done d' = true)
      /\ (watcher d = Exited -> watcher d' = Exited /\ fired d' = fired d).
Proof.
  induction sched as [|a sched IH]; intros st j d Hj.
  - exists d. auto.
  - cbn [run fold_left]. unfold exec.
    destruct (step a st) as [st'|] eqn:E; [|now apply IH].
    destruct (derived_step a st st' j d E Hj) as (d1 & H1 & Hc1 & He1).
    destruct (IH st' j d1 H1) as (d2 & H2 & Hc2 & He2).
    exists d2. split; [exact H2|]. split; [auto|].
    intros W. destruct (He1 W) as [W1 F1]. destruct (He2 W1) as [W2 F2].
    split; [exact W2 | congruence].
Qed.

(** A context cancelled by its caller stays done while a signal goes
    through the bridge to another watcher. *)
Lemma cancellation_is_irrevocable_witness :
  exists d',
    derived (run [WatcherStep 0; Deliver SIGINT; BridgeRecv 0; WatcherRecv 1;
                  WatcherStep 1; CancelCtx 0]
                 (run (sequential 2 ++ [CancelCtx 0]) (start 2))) !! 0
      = Some d'
    /\ (true = true -> ctx_done d' = true)
    /\ (AtSelect = Exited -> watcher d' = Exited /\ fired d' = []).
Proof.
  apply (cancellation_is_irrevocable _
           (run (sequential 2 ++ [CancelCtx 0]) (start 2)) 0
           (mkDerived true AtSelect [])).
  vm_compute. reflexivity.
Defined.

(** ** Every call gets a context of its own *)

Lemma FreshCtx_frame st st' :
  callers st' = callers st ->
  length (derived st') = length (derived st) ->
  FreshCtx st -> FreshCtx st'.
Proof.
  intros Hc Hd [H1 H2 H3]. split; rewrite ?Hc, ?Hd; assumption.
Qed.

(** [WithCancel]: the new context is past all the ones handed out. *)
Lemma FreshCtx_withCancel i st :
  FreshCtx st ->
  callers st !! i = Some AtWithCancel ->
  FreshCtx (set_callers (<[i := Returned (length (derived st))]> (callers st))
              (withCancel st)).
Proof.
  intros [H1 H2 H3] E.
  pose proof (count_insert has_returned _ _ _
                (Returned (length (derived st))) E) as Hn.
  cbn [has_returned b2n] in Hn.
  split; cbn [set_callers withCancel set_derived callers derived];
    rewrite ?length_app; cbn [length].
  - intros k c Hk.
    apply list_lookup_insert_Some in Hk as [(_ & Hk & _)|[_ Hk]].
    + injection Hk as <-. lia.
    + specialize (H1 _ _ Hk). lia.
  - intros k k' c Hk Hk'.
    apply list_lookup_insert_Some in Hk as [(<- & Hk & _)|[Hik Hk]];
      apply list_lookup_insert_Some in Hk' as [(<- & Hk' & _)|[Hik' Hk']];
      try reflexivity.
    + injection Hk as <-. specialize (H1 _ _ Hk'). lia.
    + injection Hk' as <-. specialize (H1 _ _ Hk). lia.
    + exact (H2 _ _ _ Hk Hk').
  - lia.
Qed.

Lemma FreshCtx_step a st st' :
  FreshCtx st -> step a st = Some st' -> FreshCtx st'.
Proof.
  intros I. destruct a as [i|s|b|j|j|j]; cbn [step].
  - destruct I as [H1 H2 H3]. unfold step_call.
    destruct (callers st !! i) as [pc|] eqn:E; [|discriminate].
    assert (Hother : forall y k c,
              (forall c', y <> Returned c') ->
              <[i := y]> (callers st) !! k = Some (Returned c) ->
              callers st !! k = Some (Returned c)).
    { intros y k c Hy Hk.
      apply list_lookup_insert_Some in Hk as [(_ & Hk & _)|[_ Hk]];
        [now contradiction (Hy c) | exact Hk]. }
    destruct pc; try discriminate;
      try destruct (once_locked st); try destruct (once_done st);
      try discriminate; intros [= <-];
      match goal with
      | |- FreshCtx (set_callers (<[_ := ?y]> _) _) =>
          pose proof (count_insert has_returned _ _ _ y E) as Hn;
          pose proof (Hother y) as Ho
      end; cbn [has_returned b2n] in Hn.
    all: try (split; cbn [set_callers set_locked set_done init
                           callers derived];
              [ intros k c Hk; apply (H1 k), Ho; [discriminate | exact Hk]
              | intros k k' c Hk Hk';
                apply (H2 k k' c); apply Ho; (discriminate || assumption)
              | lia ]).
    all: apply FreshCtx_withCancel; [now split | exact E].
  - intros [= <-]. revert I. apply FreshCtx_frame; reflexivity.
  - unfold step_bridge. intros H.
    destruct (bridges st !! b) as [br|]; [|discriminate].
    destruct (bridge_pc br), (signalCh br); simplify_eq.
    revert I. apply FreshCtx_frame; reflexivity.
  - unfold step_watcher_recv. intros H.
    destruct (derived st !! j) as [d|]; [|discriminate].
    destruct (cancelCh st) as [b|]; [|discriminate].
    destruct (watcher d); try discriminate.
    destruct (bridges st !! b) as [br|]; [|discriminate].
    destruct (bridge_pc br); simplify_eq.
    revert I. apply FreshCtx_frame; [reflexivity | apply length_insert].
  - unfold step_watcher. intros H.
    destruct (derived st !! j) as [d|]; [|discriminate].
    destruct (watcher d); [destruct (ctx_done d)|..]; simplify_eq;
      revert I; apply FreshCtx_frame;
      reflexivity || apply length_insert.
  - unfold step_cancel. intros H.
    destruct (derived st !! j) as [d|]; simplify_eq.
    revert I. apply FreshCtx_frame; [reflexivity | apply length_insert].
Qed.

(** X5: along every schedule each call that returned holds a derived
    context that exists, with its watcher; no two calls hold the same
    context; and there are exactly as many derived contexts as calls
    that returned. *)
Theorem every_call_gets_its_own_context (n : nat) (sched : list Action) :
  (forall i c,
     callers (run sched (start n)) !! i = Some (Returned c) ->
     exists d, derived (run sched (start n)) !! c = Some d)
  /\ (forall i i' c,
        callers (run sched (start n)) !! i = Some (Returned c) ->
        callers (run sched (start n)) !! i' = Some (Returned c) ->
        i = i')
  /\ length (derived (run sched (start n)))
     = count has_returned (callers (run sched (start n))).
Proof.
  assert (I : FreshCtx (run sched (start n))).
  { apply run_invariant; [apply FreshCtx_step|].
    split; cbn [start callers derived length].
    - intros i c Hi. apply lookup_replicate in Hi as [Hi _]. discriminate.
    - intros i i' c Hi. apply lookup_replicate in Hi as [Hi _]. discriminate.
    - symmetry. now apply count_replicate_false. }
  destruct I as [H1 H2 H3]. split; [|split; assumption].
  intros i c Hi. apply lookup_lt_is_Some_2. eauto.
Qed.

Lemma every_call_gets_its_own_context_witness :
  (exists d, derived (run racing_calls (start 3)) !! 2 = Some d)
  /\ length (derived (run racing_calls (start 3))) = 3.
Proof.
  split.
  - apply (proj1 (every_call_gets_its_own_context 3 racing_calls) 1 2).
    vm_compute. reflexivity.
  - rewrite (proj2 (proj2 (every_call_gets_its_own_context 3 racing_calls))).
    vm_compute. reflexivity.
Defined.

(** ** A signal reaches a waiting watcher *)

(** X6: in every reachable state with the bridge idle (nothing buffered,
    the goroutine at [<-signalCh]) and a watcher waiting in its
    [select], a watched signal followed by the bridge's receive, the
    watcher's receive and the watcher's next statement leaves that
    context done, cancelled through [o.cancelCh], and the watcher
    finished. *)
Theorem signal_reaches_waiting_watcher
    (n : nat) (sched : list Action) j d br s :
  derived (run sched (start n)) !! j = Some d ->
  watcher d = AtSelect ->
  bridges (run sched (start n)) !! 0 = Some br ->
  signalCh br = [] ->
  bridge_pc br = AtRecvSignal ->
  is_watched s = true ->
  derived (run [Deliver s; BridgeRecv 0; WatcherRecv j; WatcherStep j]
               (run sched (start n))) !! j
  = Some (mkDerived true Exited [ArmCancelCh]).
Proof.
  intros Hj W Hb Hq Hpc Hs.
  pose proof (Forall_lookup_1 _ _ _ _ (WatchersInv_run n sched) Hj) as Hd.
  unfold DerivedInv in Hd. rewrite W in Hd.
  destruct (Forall_lookup_1 _ _ _ _ (BridgesInv_run n sched) Hb)
    as [Hn _ _].
  pose proof (bridges_at_most_one n sched) as H1.
  destruct (OnceInv_run n sched) as [_ _ _ _ Hc].
  pose proof (lookup_lt_Some _ _ _ Hj) as Hlt.
  destruct (run sched (start n)) as [od ol cc bs cs ds].
  cbn [bridges derived cancelCh] in *.
  destruct bs as [|b0 [|b1 bs]]; [discriminate| |cbn in H1; lia].
  cbn in Hb, Hc. injection Hb as ->. subst cc.
  destruct br as [nt sc pc a dr em]. cbn in Hn, Hq, Hpc. subst nt sc pc.
  destruct d as [dn w f]. cbn in W, Hd. subst w f.
  assert (Hnotify : notify s (mkBridge [SIGINT; SIGTERM] [] AtRecvSignal
                                a dr em)
                    = mkBridge [SIGINT; SIGTERM] [s] AtRecvSignal
                        (S a) dr em).
  { unfold notify. cbn [notified]. fold (is_watched s). now rewrite Hs. }
  assert (E1 : exec (Deliver s)
                 (mkState od ol (Some 0)
                    [mkBridge [SIGINT; SIGTERM] [] AtRecvSignal a dr em]
                    cs ds)
               = mkState od ol (Some 0)
                   [mkBridge [SIGINT; SIGTERM] [s] AtRecvSignal (S a) dr em]
                   cs ds).
  { unfold exec. cbn [step bridges map set_bridges]. now rewrite Hnotify. }
  assert (E2 : exec (BridgeRecv 0)
                 (mkState od ol (Some 0)
                    [mkBridge [SIGINT; SIGTERM] [s] AtRecvSignal (S a) dr em]
                    cs ds)
               = mkState od ol (Some 0)
                   [mkBridge [SIGINT; SIGTERM] [] AtSendResult (S a) dr em]
                   cs ds) by reflexivity.
  assert (E3 : exec (WatcherRecv j)
                 (mkState od ol (Some 0)
                    [mkBridge [SIGINT; SIGTERM] [] AtSendResult (S a) dr em]
                    cs ds)
               = mkState od ol (Some 0)
                   [mkBridge [SIGINT; SIGTERM] [] AtRecvSignal (S a) dr
                      (S em)]
                   cs (<[j := mkDerived dn AtCancel [ArmCancelCh]]> ds)).
  { unfold exec. cbn [step]. unfold step_watcher_recv.
    cbn [derived cancelCh]. rewrite Hj. reflexivity. }
  assert (E4 : exec (WatcherStep j)
                 (mkState od ol (Some 0)
                    [mkBridge [SIGINT; SIGTERM] [] AtRecvSignal (S a) dr
                       (S em)]
                    cs (<[j := mkDerived dn AtCancel [ArmCancelCh]]> ds))
               = mkState od ol (Some 0)
                   [mkBridge [SIGINT; SIGTERM] [] AtRecvSignal (S a) dr
                      (S em)]
                   cs (<[j := mkDerived true Exited [ArmCancelCh]]> ds)).
  { unfold exec. cbn [step]. unfold step_watcher. cbn [derived].
    rewrite list_lookup_insert_eq by exact Hlt.
    cbn [watcher set_derived fired once_done once_locked cancelCh bridges
         callers derived].
    now rewrite list_insert_insert_eq. }
  cbn [run fold_left]. rewrite E1, E2, E3, E4. cbn [derived].
  now rewrite list_lookup_insert_eq by exact Hlt.
Qed.

Lemma signal_reaches_waiting_watcher_witness :
  derived (run [Deliver SIGTERM; BridgeRecv 0; WatcherRecv 2; WatcherStep 2]
               (run racing_calls (start 3))) !! 2
  = Some (mkDerived true Exited [ArmCancelCh]).
Proof.
  apply (signal_reaches_waiting_watcher 3 racing_calls 2
           (mkDerived false AtSelect [])
           (mkBridge [SIGINT; SIGTERM] [] AtRecvSignal 0 0 0) SIGTERM);
    vm_compute; reflexivity.
Defined.

End CancelMore.

(** * Properties of flag binding *)

Module FlagFacts.
Import Flags.

(** ** Lookups in a growing flag set *)

Lemma find_snoc {A} (p : A -> bool) (l : list A) (x : A) :
  List.find p (l ++ [x])
  = match List.find p l with
    | Some y => Some y
    | None => if p x then Some x else None
    end.
Proof.
  induction l as [|z l IH]; cbn; [reflexivity|].
  destruct (p z); [reflexivity | exact IH].
Qed.

Lemma Lookup_with_flag name fs f :
  Lookup name (with_flag fs f)
  = match Lookup name fs with
    | Some y => Some y
    | None => if String.eqb (Name f) name then Some f else None
    end.
Proof.
  exact (find_snoc (fun g => String.eqb (Name g) name) (formal fs) f).
Qed.

Lemma shorthand_of_with_flag c fs f :
  shorthand_of c (with_flag fs f)
  = match shorthand_of c fs with
    | Some y => Some y
    | None => if String.eqb (Shorthand f) c then Some f else None
    end.
Proof.
  exact (find_snoc (fun g => String.eqb (Shorthand g) c) (formal fs) f).
Qed.

(** A flag with a fresh name and a free one-letter shorthand, or none,
    is added at the end. *)
Lemma AddFlag_free f fs :
  Lookup (Name f) fs = None ->
  (String.length (Shorthand f) <= 1)%nat ->
  shorthand_of (Shorthand f) fs = None \/ Shorthand f = "" ->
  AddFlag f fs = Done (with_flag fs f).
Proof.
  intros Hn Hl Hs. unfold AddFlag. rewrite Hn.
  destruct (String.eqb_spec (Shorthand f) "") as [E|E]; [reflexivity|].
  destruct (Nat.ltb_spec 1 (String.length (Shorthand f))); [lia|].
  destruct Hs as [-> | Hs]; [reflexivity | contradiction].
Qed.

(** What it takes for a flag to be added. *)
Lemma AddFlag_Done f fs fs' :
  AddFlag f fs = Done fs' ->
  fs' = with_flag fs f /\ Lookup (Name f) fs = None.
Proof.
  unfold AddFlag. destruct (Lookup (Name f) fs); [discriminate|].
  destruct (String.eqb _ _); [intros [= <-]; auto|].
  destruct (_ <? _)%nat; [discriminate|].
  destruct (shorthand_of _ _); [discriminate|]. intros [= <-]. auto.
Qed.

Lemma hide_absent name (l : list Flag) :
  List.find (fun f => String.eqb (Name f) name) l = None ->
  map (fun f => if String.eqb (Name f) name then hide f else f) l = l.
Proof.
  induction l as [|f l IH]; cbn; [reflexivity|].
  destruct (String.eqb (Name f) name); [discriminate|].
  intros H. now rewrite IH.
Qed.

(** ** [RootOptions.BindFlags] *)

(** ** Reading fields after writes *)

Lemma strs_set_str_eq p v o : strs (set_str p v o) p = v.
Proof. cbn. now destruct (decide (p = p)). Qed.

Lemma strs_set_str_ne p q v o : p <> q -> strs (set_str p v o) q = strs o q.
Proof. intros H. cbn. now destruct (decide (p = q)). Qed.

Lemma ints_set_int_eq p v o : ints (set_int p v o) p = v.
Proof. cbn. now destruct (decide (p = p)). Qed.

Lemma ints_set_int_ne p q v o : p <> q -> ints (set_int p v o) q = ints o q.
Proof. intros H. cbn. now destruct (decide (p = q)). Qed.

Lemma bools_set_bool_ne p q v o :
  p <> q -> bools (set_bool p v o) q = bools o q.
Proof. intros H. cbn. now destruct (decide (p = q)). Qed.

Lemma bools_set_bool_eq p v o : bools (set_bool p v o) p = v.
Proof. cbn. now destruct (decide (p = p)). Qed.

Lemma strs_set_int p v o q : strs (set_int p v o) q = strs o q.
Proof. reflexivity. Qed.
Lemma strs_set_bool p v o q : strs (set_bool p v o) q = strs o q.
Proof. reflexivity. Qed.
Lemma ints_set_str p v o q : ints (set_str p v o) q = ints o q.
Proof. reflexivity. Qed.
Lemma ints_set_bool p v o q : ints (set_bool p v o) q = ints o q.
Proof. reflexivity. Qed.
Lemma bools_set_str p v o q : bools (set_str p v o) q = bools o q.
Proof. reflexivity. Qed.
Lemma bools_set_int p v o q : bools (set_int p v o) q = bools o q.
Proof. reflexivity. Qed.

(** Writing to a field the value it holds changes nothing one can
    read. *)
Lemma strs_set_str_same o0 p o q :
  strs o q = strs o0 q -> strs (set_str p (strs o0 p) o) q = strs o0 q.
Proof. intros H. cbn. destruct (decide (p = q)) as [<-|]; auto. Qed.

Lemma bools_set_bool_same o0 p o q :
  bools o q = bools o0 q -> bools (set_bool p (bools o0 p) o) q = bools o0 q.
Proof. intros H. cbn. destruct (decide (p = q)) as [<-|]; auto. Qed.

Ltac read_fields :=
  repeat first
    [ rewrite strs_set_int | rewrite strs_set_bool
    | rewrite ints_set_str | rewrite ints_set_bool
    | rewrite bools_set_str | rewrite bools_set_int
    | rewrite strs_set_str_eq | rewrite ints_set_int_eq
    | rewrite bools_set_bool_eq
    | rewrite strs_set_str_ne by discriminate
    | rewrite ints_set_int_ne by discriminate
    | rewrite bools_set_bool_ne by discriminate ].

(** What [RootOptions.BindFlags] does on a flag set free of its names. *)
Lemma root_bind_free o fs :
  free_of root_names ["d"; "v"] fs ->
  exists o',
    RootOptions_BindFlags (o, fs)
      = Done (o', mkFlagSet (fs_name fs)
                    (formal fs ++ [dir_flag; verbose_flag (ints o FLogLevel)]))
    /\ strs o' FDir = "oc-mirror-workspace"
    /\ (forall p, p <> FDir -> strs o' p = strs o p)
    /\ (forall p, ints o' p = ints o p)
    /\ (forall p, bools o' p = bools o p).
Proof.
  intros [Hn Hs].
  apply Forall_cons_1 in Hn as [Hdir Hn].
  apply Forall_cons_1 in Hn as [Hverbose _].
  apply Forall_cons_1 in Hs as [Hd Hs].
  apply Forall_cons_1 in Hs as [Hv _].
  unfold RootOptions_BindFlags, andThen, reading, StringVarP, IntVarP.
  cbn [fst snd].
  rewrite (AddFlag_free _ fs) by (cbn; auto).
  cbn [fst snd set_str ints].
  rewrite AddFlag_free;
    [| cbn [Name]; rewrite Lookup_with_flag, Hverbose; reflexivity
     | cbn; lia
     | left; cbn [Shorthand]; rewrite shorthand_of_with_flag, Hv;
       reflexivity ].
  cbn [fst snd]. unfold MarkHidden.
  rewrite !Lookup_with_flag, Hdir. cbn [Name String.eqb Ascii.eqb Bool.eqb].
  cbn [with_flag formal fs_name].
  rewrite !map_app, hide_absent by exact Hdir. cbn.
  rewrite <- app_assoc.
  eexists. split; [reflexivity|]. cbn.
  split; [reflexivity|]. split; [|split]; intros p.
  - intros Hp. destruct (decide (FDir = p)); [congruence | reflexivity].
  - destruct (decide (FLogLevel = p)) as [<-|]; reflexivity.
  - reflexivity.
Qed.

(** X12: on a flag set that defines neither "dir" nor "verbose" and
    uses neither "d" nor "v", [RootOptions.BindFlags] returns, with the
    hidden flag "dir" and the flag "verbose" added at the end of the
    set; it sets [Dir] to "oc-mirror-workspace" whatever it held, and
    leaves every other field, [LogLevel] included, which becomes the
    default of "verbose". *)
Theorem root_bind_sets_dir_default o fs :
  free_of root_names ["d"; "v"] fs ->
  exists o',
    RootOptions_BindFlags (o, fs)
      = Done (o', mkFlagSet (fs_name fs)
                    (formal fs ++ [dir_flag; verbose_flag (ints o FLogLevel)]))
    /\ strs o' FDir = "oc-mirror-workspace"
    /\ (forall p, p <> FDir -> strs o' p = strs o p)
    /\ (forall p, ints o' p = ints o p)
    /\ (forall p, bools o' p = bools o p).
Proof. apply root_bind_free. Qed.

(** Options whose [Dir] and [LogLevel] were set before the binding. *)
Lemma root_bind_sets_dir_default_witness :
  exists o',
    RootOptions_BindFlags
      (set_str FDir "elsewhere" (set_int FLogLevel 3 zero_options),
       empty_flags "oc-mirror")
      = Done (o', mkFlagSet "oc-mirror" [dir_flag; verbose_flag 3])
    /\ strs o' FDir = "oc-mirror-workspace"
    /\ (forall p, p <> FDir ->
          strs o' p
          = strs (set_str FDir "elsewhere" (set_int FLogLevel 3 zero_options))
                 p)
    /\ (forall p, ints o' p
                  = ints (set_str FDir "elsewhere"
                            (set_int FLogLevel 3 zero_options)) p)
    /\ (forall p, bools o' p
                  = bools (set_str FDir "elsewhere"
                             (set_int FLogLevel 3 zero_options)) p).
Proof.
  apply (root_bind_sets_dir_default
           (set_str FDir "elsewhere" (set_int FLogLevel 3 zero_options))
           (empty_flags "oc-mirror")).
  split; repeat constructor.
Defined.

(** ** [MirrorOptions.BindFlags] *)

Lemma find_app_None {A} (p : A -> bool) (l1 l2 : list A) :
  List.find p l1 = None -> List.find p l2 = None ->
  List.find p (l1 ++ l2) = None.
Proof.
  intros H1 H2. induction l1 as [|x l1 IH]; cbn in *; [exact H2|].
  destruct (p x); [discriminate | auto].
Qed.

(** [AddFlag] on a set that is [l0] followed by the flags added so
    far. *)
Lemma AddFlag_at_end nm l0 added f :
  List.find (fun g => String.eqb (Name g) (Name f)) l0 = None ->
  List.find (fun g => String.eqb (Name g) (Name f)) added = None ->
  (String.length (Shorthand f) <= 1)%nat ->
  Shorthand f = ""
  \/ (List.find (fun g => String.eqb (Shorthand g) (Shorthand f)) l0 = None
      /\ List.find (fun g => String.eqb (Shorthand g) (Shorthand f)) added
         = None) ->
  AddFlag f (mkFlagSet nm (l0 ++ added))
  = Done (mkFlagSet nm (l0 ++ (added ++ [f]))).
Proof.
  intros H1 H2 Hl Hs.
  rewrite AddFlag_free; [unfold with_flag; cbn; now rewrite <- app_assoc|..].
  - now apply find_app_None.
  - exact Hl.
  - destruct Hs as [Hs|[Hs1 Hs2]]; [now right | left].
    now apply find_app_None.
Qed.

Lemma andThen_Done (b k : Binder) s s1 :
  b s = Done s1 -> (b >> k) s = k s1.
Proof. intros H. unfold andThen. now rewrite H. Qed.

Ltac bind_step :=
  unfold reading, StringVar, BoolVar, IntVar, StringVarP, BoolVarP, IntVarP;
  cbn [fst snd];
  rewrite AddFlag_at_end;
    [ read_fields; cbn [app]; reflexivity
    | cbn [Name]; assumption
    | reflexivity
    | cbn; lia
    | first [ left; reflexivity
            | right; split; [cbn [Shorthand]; assumption | reflexivity] ] ].

(** What [MirrorOptions.BindFlags] does on a flag set free of its
    names. *)
Lemma mirror_bind_free o fs :
  free_of mirror_names ["c"] fs ->
  exists o' added,
    MirrorOptions_BindFlags (o, fs)
      = Done (o', mkFlagSet (fs_name fs) (formal fs ++ added))
    /\ map Name added = mirror_names
    /\ map Shorthand added = "c" :: replicate 18 ""
    /\ Forall (fun f => Hidden f = false) added
    /\ Forall (fun f => DefValue f = shown o' (Value f)) added
    /\ ints o' FMaxPerRegistry = 6
    /\ ints o' FLogLevel = ints o FLogLevel
    /\ (forall p, strs o' p = strs o p)
    /\ (forall p, bools o' p = bools o p).
Proof.
  intros [Hn Hs]. destruct fs as [nm l0]. unfold mirror_names in Hn.
  repeat match type of Hn with
         | Forall _ (_ :: _) => apply Forall_cons_1 in Hn as [? Hn]
         end.
  apply Forall_cons_1 in Hs as [Hc _].
  unfold Lookup, shorthand_of in *. cbn [formal fs_name] in *.
  eexists _, _. split.
  { replace (mkFlagSet nm l0) with (mkFlagSet nm (l0 ++ []))
      by now rewrite app_nil_r.
    unfold MirrorOptions_BindFlags.
    do 18 (erewrite andThen_Done; [|bind_step]).
    bind_step. }
  split; [reflexivity|]. split; [reflexivity|].
  split; [repeat constructor|].
  split.
  { repeat (constructor; [cbn [DefValue Value shown]; read_fields;
                          reflexivity|]). constructor. }
  split; [read_fields; reflexivity|].
  split; [read_fields; reflexivity|].
  split; intros p.
  - repeat first [ apply strs_set_str_same | rewrite strs_set_bool
                 | rewrite strs_set_int ]. reflexivity.
  - repeat first [ apply bools_set_bool_same | rewrite bools_set_str
                 | rewrite bools_set_int ]. reflexivity.
Qed.

(** X13: on a flag set that defines none of its nineteen names and
    does not use "c", [MirrorOptions.BindFlags] returns with its flags
    added at the end, in the order of the source, none hidden and only
    "config" with a shorthand.  It sets [MaxPerRegistry] to 6 whatever
    it held and leaves every other field; the default of each flag is
    the value its field then holds. *)
Theorem mirror_bind_resets_max_per_registry o fs :
  free_of mirror_names ["c"] fs ->
  exists o' added,
    MirrorOptions_BindFlags (o, fs)
      = Done (o', mkFlagSet (fs_name fs) (formal fs ++ added))
    /\ map Name added = mirror_names
    /\ map Shorthand added = "c" :: replicate 18 ""
    /\ Forall (fun f => Hidden f = false) added
    /\ Forall (fun f => DefValue f = shown o' (Value f)) added
    /\ ints o' FMaxPerRegistry = 6
    /\ ints o' FLogLevel = ints o FLogLevel
    /\ (forall p, strs o' p = strs o p)
    /\ (forall p, bools o' p = bools o p).
Proof. apply mirror_bind_free. Qed.

Lemma mirror_bind_resets_max_per_registry_witness :
  exists o' added,
    MirrorOptions_BindFlags
      (set_int FMaxPerRegistry 2 zero_options, empty_flags "oc-mirror")
      = Done (o', mkFlagSet (fs_name (empty_flags "oc-mirror"))
                    (formal (empty_flags "oc-mirror") ++ added))
    /\ map Name added = mirror_names
    /\ map Shorthand added = "c" :: replicate 18 ""
    /\ Forall (fun f => Hidden f = false) added
    /\ Forall (fun f => DefValue f = shown o' (Value f)) added
    /\ ints o' FMaxPerRegistry = 6
    /\ ints o' FLogLevel = ints (set_int FMaxPerRegistry 2 zero_options)
                                FLogLevel
    /\ (forall p, strs o' p
                  = strs (set_int FMaxPerRegistry 2 zero_options) p)
    /\ (forall p, bools o' p
                  = bools (set_int FMaxPerRegistry 2 zero_options) p).
Proof.
  apply (mirror_bind_resets_max_per_registry
           (set_int FMaxPerRegistry 2 zero_options)
           (empty_flags "oc-mirror")).
  split; repeat constructor.
Defined.

(** ** When binding does not return *)

Lemma find_app {A} (p : A -> bool) (l1 l2 : list A) :
  List.find p (l1 ++ l2)
  = match List.find p l1 with
    | Some y => Some y
    | None => List.find p l2
    end.
Proof.
  induction l1 as [|x l1 IH]; cbn; [reflexivity|].
  destruct (p x); [reflexivity | exact IH].
Qed.

Lemma andThen_Panic (b k : Binder) s why :
  b s = Panic why -> (b >> k) s = Panic why.
Proof. intros H. unfold andThen. now rewrite H. Qed.

Lemma AddFlag_taken f fs x :
  Lookup (Name f) fs = Some x ->
  AddFlag f fs = Panic (FlagRedefined (fs_name fs) (Name f)).
Proof. intros H. unfold AddFlag. now rewrite H. Qed.

Lemma AddFlag_shorthand_taken f fs used :
  Lookup (Name f) fs = None ->
  String.length (Shorthand f) = 1%nat ->
  shorthand_of (Shorthand f) fs = Some used ->
  AddFlag f fs
  = Panic (ShorthandRedefined (Shorthand f) (fs_name fs) (Name used)).
Proof.
  intros Hn Hl Hs. unfold AddFlag. rewrite Hn, Hs.
  destruct (Shorthand f) as [|c [|c' r]]; try discriminate. reflexivity.
Qed.

Lemma not_free_name names shs fs n x :
  n ∈ names -> Lookup n fs = Some x -> ~ free_of names shs fs.
Proof.
  intros Hin Hl [Hn _]. rewrite Forall_forall in Hn.
  specialize (Hn _ Hin). congruence.
Qed.

Lemma not_free_shorthand names shs fs c x :
  c ∈ shs -> shorthand_of c fs = Some x -> ~ free_of names shs fs.
Proof.
  intros Hin Hl [_ Hs]. rewrite Forall_forall in Hs.
  specialize (Hs _ Hin). congruence.
Qed.

(** [RootOptions.BindFlags] returns exactly on the flag sets free of its
    names and shorthands, panics on the others, and never reaches
    [klog.Fatal]. *)
Lemma root_bind_cases o fs :
  match RootOptions_BindFlags (o, fs) with
  | Done _ => free_of root_names ["d"; "v"] fs
  | Panic _ => ~ free_of root_names ["d"; "v"] fs
  | FatalExit _ => False
  end.
Proof.
  destruct (Lookup "dir" fs) as [x|] eqn:E1.
  { unfold RootOptions_BindFlags, andThen, StringVarP. cbn [fst snd].
    rewrite (AddFlag_taken _ fs x) by exact E1.
    eapply not_free_name; [|exact E1]. unfold root_names. repeat constructor. }
  destruct (shorthand_of "d" fs) as [x|] eqn:E2.
  { unfold RootOptions_BindFlags, andThen, StringVarP. cbn [fst snd].
    rewrite (AddFlag_shorthand_taken _ fs x) by (assumption || reflexivity).
    eapply not_free_shorthand; [|exact E2]. repeat constructor. }
  destruct (Lookup "verbose" fs) as [x|] eqn:E3.
  { unfold RootOptions_BindFlags, andThen, reading, StringVarP, IntVarP.
    cbn [fst snd].
    rewrite (AddFlag_free _ fs) by (cbn; auto). cbn [fst snd].
    rewrite (AddFlag_taken _ _ x)
      by (cbn [Name]; rewrite Lookup_with_flag, E3; reflexivity).
    eapply not_free_name; [|exact E3]. unfold root_names. repeat constructor. }
  destruct (shorthand_of "v" fs) as [x|] eqn:E4.
  { unfold RootOptions_BindFlags, andThen, reading, StringVarP, IntVarP.
    cbn [fst snd].
    rewrite (AddFlag_free _ fs) by (cbn; auto). cbn [fst snd].
    rewrite (AddFlag_shorthand_taken _ _ x);
      [ | cbn [Name]; rewrite Lookup_with_flag, E3; reflexivity
        | reflexivity
        | cbn [Shorthand]; rewrite shorthand_of_with_flag, E4; reflexivity ].
    eapply not_free_shorthand; [|exact E4]. repeat constructor. }
  assert (Hfree : free_of root_names ["d"; "v"] fs)
    by (split; repeat constructor; assumption).
  destruct (root_bind_free o fs Hfree) as (o' & -> & _). exact Hfree.
Qed.

(** X14: whatever the flag set holds, [RootOptions.BindFlags] never
    ends in [klog.Fatal]: [MarkHidden] always finds the flag "dir" that
    was just added.  It returns exactly when the set defines neither
    "dir" nor "verbose" and uses neither "d" nor "v", and panics in
    [AddFlag] otherwise. *)
Theorem root_bind_never_fatal o fs :
  match RootOptions_BindFlags (o, fs) with
  | Done _ => free_of root_names ["d"; "v"] fs
  | Panic _ => ~ free_of root_names ["d"; "v"] fs
  | FatalExit _ => False
  end.
Proof. apply root_bind_cases. Qed.

(** A set that holds "verbose" already: the hidden flag is never
    reached. *)
Example root_bind_on_taken_name :
  RootOptions_BindFlags
    (zero_options, mkFlagSet "oc-mirror" [verbose_flag 0])
  = Panic (ShorthandRedefined "v" "oc-mirror" "verbose")
    \/ RootOptions_BindFlags
         (zero_options, mkFlagSet "oc-mirror" [verbose_flag 0])
       = Panic (FlagRedefined "oc-mirror" "verbose").
Proof. right. vm_compute. reflexivity. Qed.

(** ** Binding twice *)

Lemma andThen_inv (b k : Binder) s s' :
  (b >> k) s = Done s' -> exists s1, b s = Done s1 /\ k s1 = Done s'.
Proof.
  unfold andThen. destruct (b s) as [s1| |]; try discriminate. eauto.
Qed.

Lemma Grows_andThen b k : Grows b -> Grows k -> Grows (b >> k).
Proof.
  intros Hb Hk s s' H. apply andThen_inv in H as (s1 & H1 & H2).
  destruct (Hb _ _ H1) as [Hn1 Hl1]. destruct (Hk _ _ H2) as [Hn2 Hl2].
  split; [congruence | auto].
Qed.

Lemma Grows_reading k : (forall o, Grows (k o)) -> Grows (reading k).
Proof. intros H s s'. unfold reading. apply H. Qed.

Lemma Grows_AddFlag f fs fs' :
  AddFlag f fs = Done fs' ->
  fs_name fs' = fs_name fs
  /\ (forall n, is_Some (Lookup n fs) -> is_Some (Lookup n fs'))
  /\ is_Some (Lookup (Name f) fs').
Proof.
  intros H. apply AddFlag_Done in H as [-> Hn].
  split; [reflexivity|]. split.
  - intros n [x Hx]. rewrite Lookup_with_flag, Hx. eauto.
  - rewrite Lookup_with_flag, Hn, String.eqb_refl. eauto.
Qed.

Lemma Grows_StringVarP p name sh v u : Grows (StringVarP p name sh v u).
Proof.
  intros s s'. unfold StringVarP.
  destruct (AddFlag _ _) as [fs'| |] eqn:E; try discriminate.
  intros [= <-]. apply Grows_AddFlag in E as (? & ? & _). auto.
Qed.

Lemma Grows_IntVarP p name sh v u : Grows (IntVarP p name sh v u).
Proof.
  intros s s'. unfold IntVarP.
  destruct (AddFlag _ _) as [fs'| |] eqn:E; try discriminate.
  intros [= <-]. apply Grows_AddFlag in E as (? & ? & _). auto.
Qed.

Lemma Grows_BoolVarP p name sh v u : Grows (BoolVarP p name sh v u).
Proof.
  intros s s'. unfold BoolVarP.
  destruct (AddFlag _ _) as [fs'| |] eqn:E; try discriminate.
  intros [= <-]. apply Grows_AddFlag in E as (? & ? & _). auto.
Qed.

Ltac grows :=
  repeat first
    [ apply Grows_andThen | apply Grows_reading; intros
    | apply Grows_StringVarP | apply Grows_IntVarP | apply Grows_BoolVarP ].

(** X15: [RootOptions.BindFlags] is not idempotent.  When it returned,
    calling it again on the resulting flag set, for any receiver, panics
    with "dir" redefined. *)
Theorem root_bind_twice_panics o fs o1 fs1 :
  RootOptions_BindFlags (o, fs) = Done (o1, fs1) ->
  forall o2,
    RootOptions_BindFlags (o2, fs1)
    = Panic (FlagRedefined (fs_name fs) "dir").
Proof.
  intros H o2.
  pose proof (root_bind_cases o fs) as Hc. rewrite H in Hc.
  destruct (root_bind_free o fs Hc) as (o' & H' & _).
  rewrite H in H'. injection H' as _ ->.
  destruct Hc as [Hn _]. apply Forall_cons_1 in Hn as [Hdir _].
  unfold RootOptions_BindFlags. apply andThen_Panic.
  unfold StringVarP. cbn [fst snd].
  erewrite AddFlag_taken; [reflexivity|].
  cbn [Name]. unfold Lookup in *. cbn [formal].
  rewrite find_app, Hdir. reflexivity.
Qed.

Lemma root_bind_twice_panics_witness :
  RootOptions_BindFlags (zero_options, empty_flags "oc-mirror")
  = Done (set_str FDir "oc-mirror-workspace"
            (set_int FLogLevel 0 zero_options),
          mkFlagSet "oc-mirror" [dir_flag; verbose_flag 0])
  /\ RootOptions_BindFlags
       (set_int FLogLevel 2 zero_options,
        mkFlagSet "oc-mirror" [dir_flag; verbose_flag 0])
     = Panic (FlagRedefined (fs_name (empty_flags "oc-mirror")) "dir").
Proof.
  split; [reflexivity|].
  refine (root_bind_twice_panics zero_options (empty_flags "oc-mirror")
            (set_str FDir "oc-mirror-workspace"
               (set_int FLogLevel 0 zero_options))
            (mkFlagSet "oc-mirror" [dir_flag; verbose_flag 0])
            _ (set_int FLogLevel 2 zero_options)).
  reflexivity.
Defined.

(** X16: [MirrorOptions.BindFlags] is not idempotent.  When it
    returned, calling it again on the resulting flag set, for any
    receiver, panics with "config" redefined. *)
Theorem mirror_bind_twice_panics o fs o1 fs1 :
  MirrorOptions_BindFlags (o, fs) = Done (o1, fs1) ->
  forall o2,
    MirrorOptions_BindFlags (o2, fs1)
    = Panic (FlagRedefined (fs_name fs) "config").
Proof.
  intros H o2.
  unfold MirrorOptions_BindFlags in H.
  apply andThen_inv in H as (s1 & H1 & H2).
  unfold reading, StringVarP in H1. cbn [fst snd] in H1.
  destruct (AddFlag _ fs) as [fs'| |] eqn:E; try discriminate.
  injection H1 as <-.
  apply Grows_AddFlag in E as (Hnm & _ & [x Hx]).
  match type of H2 with
  | ?k _ = _ => assert (G : Grows k) by grows
  end.
  destruct (G _ _ H2) as [Hnm2 Hl2]. cbn [fst snd] in *.
  destruct (Hl2 "config" (ex_intro _ x Hx)) as [y Hy].
  unfold MirrorOptions_BindFlags. apply andThen_Panic.
  unfold reading, StringVarP. cbn [fst snd].
  erewrite AddFlag_taken by exact Hy. cbn [Name].
  rewrite Hnm2, Hnm. reflexivity.
Qed.

Lemma mirror_bind_twice_panics_witness :
  MirrorOptions_BindFlags (zero_options, empty_flags "oc-mirror")
  = Done (mirror_bound.1, mirror_bound.2)
  /\ MirrorOptions_BindFlags
       (set_str FConfigPath "isc.yaml" zero_options, mirror_bound.2)
     = Panic (FlagRedefined (fs_name (empty_flags "oc-mirror")) "config").
Proof.
  assert (H : MirrorOptions_BindFlags (zero_options, empty_flags "oc-mirror")
              = Done (mirror_bound.1, mirror_bound.2))
    by (vm_compute; reflexivity).
  split; [exact H|].
  exact (mirror_bind_twice_panics zero_options (empty_flags "oc-mirror")
           mirror_bound.1 mirror_bound.2 H
           (set_str FConfigPath "isc.yaml" zero_options)).
Defined.

(** ** The two [BindFlags] on one flag set *)

Lemma find_not_in (g : Flag -> string) n (l : list Flag) :
  n ∉ map g l -> List.find (fun f => String.eqb (g f) n) l = None.
Proof.
  induction l as [|a l IH]; cbn; [reflexivity|].
  intros H. apply not_elem_of_cons in H as [H1 H2].
  destruct (String.eqb_spec (g a) n); [congruence | auto].
Qed.

Lemma free_of_app names shs nm l added :
  free_of names shs (mkFlagSet nm l) ->
  Forall (fun n => n ∉ map Name added) names ->
  Forall (fun c => c ∉ map Shorthand added) shs ->
  free_of names shs (mkFlagSet nm (l ++ added)).
Proof.
  intros [Hn Hs] Ha Hb. unfold free_of, Lookup, shorthand_of in *.
  cbn [formal] in *. rewrite Forall_forall in Hn, Hs, Ha, Hb.
  split; apply Forall_forall; intros n Hin; rewrite find_app.
  - rewrite (Hn n Hin). apply find_not_in, Ha, Hin.
  - rewrite (Hs n Hin). apply find_not_in, Hb, Hin.
Qed.

Lemma free_of_both fs :
  free_of (root_names ++ mirror_names) ["d"; "v"; "c"] fs ->
  free_of root_names ["d"; "v"] fs /\ free_of mirror_names ["c"] fs.
Proof.
  intros [Hn Hs]. apply Forall_app in Hn as [Hr Hm].
  apply Forall_cons_1 in Hs as [Hd Hs].
  apply Forall_cons_1 in Hs as [Hv Hc].
  split; split; auto.
Qed.

(** X17: the two [BindFlags] do not clash.  On a flag set that defines
    none of the twenty-one names and uses none of "d", "v" and "c",
    binding the root options and then the mirror options returns, and so
    does binding them the other way round; both orders leave the same
    value in every field, and the flag set holds the former names
    followed by the names of the two, in the order of the calls. *)
Theorem bind_flags_in_either_order o fs :
  free_of (root_names ++ mirror_names) ["d"; "v"; "c"] fs ->
  exists o1 fs1 o2 fs2,
    (RootOptions_BindFlags >> MirrorOptions_BindFlags) (o, fs)
      = Done (o1, fs1)
    /\ (MirrorOptions_BindFlags >> RootOptions_BindFlags) (o, fs)
         = Done (o2, fs2)
    /\ same_options o1 o2
    /\ map Name (formal fs1)
       = map Name (formal fs) ++ root_names ++ mirror_names
    /\ map Name (formal fs2)
       = map Name (formal fs) ++ mirror_names ++ root_names.
Proof.
  intros H. apply free_of_both in H as [Hr Hm]. destruct fs as [nm l].
  destruct (root_bind_free o _ Hr) as (oR & ER & RDir & Rstr & Rint & Rbool).
  destruct (mirror_bind_free o _ Hm)
    as (oM & addM & EM & MN & MS & _ & _ & Mmax & Mlog & Mstr & Mbool).
  cbn [fs_name formal] in ER, EM.
  assert (HmR : free_of mirror_names ["c"]
                  (mkFlagSet nm
                     (l ++ [dir_flag; verbose_flag (ints o FLogLevel)]))).
  { apply free_of_app; [exact Hm| |];
      refine (bool_decide_unpack _ _); vm_compute; exact I. }
  assert (HrM : free_of root_names ["d"; "v"] (mkFlagSet nm (l ++ addM))).
  { apply free_of_app; [exact Hr| |]; rewrite ?MN, ?MS;
      refine (bool_decide_unpack _ _); vm_compute; exact I. }
  destruct (mirror_bind_free oR _ HmR)
    as (o1 & add1 & E1 & N1 & _ & _ & _ & max1 & log1 & str1 & bool1).
  destruct (root_bind_free oM _ HrM)
    as (o2 & E2 & Dir2 & str2 & int2 & bool2).
  cbn [fs_name formal] in E1, E2.
  eexists o1, _, o2, _.
  split; [unfold andThen at 1; rewrite ER; exact E1|].
  split; [unfold andThen at 1; rewrite EM; exact E2|].
  split; [|split].
  - split; [|split]; intros p.
    + rewrite str1. destruct (decide (p = FDir)) as [->|Hp].
      * now rewrite RDir, Dir2.
      * now rewrite Rstr, str2, Mstr.
    + rewrite int2. destruct p.
      * now rewrite log1, Rint, Mlog.
      * now rewrite max1, Mmax.
    + now rewrite bool1, Rbool, bool2, Mbool.
  - cbn [formal]. rewrite !map_app, N1. now rewrite <- app_assoc.
  - cbn [formal]. rewrite !map_app, MN. now rewrite <- app_assoc.
Qed.

Lemma bind_flags_in_either_order_witness :
  exists o1 fs1 o2 fs2,
    (RootOptions_BindFlags >> MirrorOptions_BindFlags)
      (zero_options, empty_flags "oc-mirror") = Done (o1, fs1)
    /\ (MirrorOptions_BindFlags >> RootOptions_BindFlags)
         (zero_options, empty_flags "oc-mirror") = Done (o2, fs2)
    /\ same_options o1 o2
    /\ map Name (formal fs1)
       = map Name (formal (empty_flags "oc-mirror"))
         ++ root_names ++ mirror_names
    /\ map Name (formal fs2)
       = map Name (formal (empty_flags "oc-mirror"))
         ++ mirror_names ++ root_names.
Proof.
  apply (bind_flags_in_either_order zero_options (empty_flags "oc-mirror")).
  split; repeat constructor.
Defined.

Example root_bind_on_empty :
  match RootOptions_BindFlags (zero_options, empty_flags "oc-mirror") with
  | Done (o, fs) =>
      strs o FDir = "oc-mirror-workspace"
      /\ map (fun f => (Name f, Shorthand f, DefValue f, Hidden f))
             (formal fs)
         = [("dir", "d", "oc-mirror-workspace", true);
            ("verbose", "v", "0", false)]
  | _ => False
  end.
Proof. vm_compute. split; reflexivity. Qed.

End FlagFacts.
